(** * HELICS co-simulation federates (roi-uncc-mcp examples)

    A shallow embedding of the five example federates

      - examples/lc-tank/cpp/Capacitor.cpp and Inductor.cpp,
      - examples/simple-cosim/gridpack_federate.cpp,
      - examples/pf-cosim/gpk/gpk-left-fed.cpp,
      - examples/2bus-13bus/gpk-left-fed.cpp,

    and the properties of their time-synchronised boundary-exchange loops.

    Modelling decisions.

    - C++ [double] is an interface, [Scalar], with two instances.  [R] is the
      exact arithmetic the specification reasons in; the algebraic laws are
      proved there (rounding, infinities and NaN are outside that instance).
      [binary64] is IEEE 754 double precision through Rocq's primitive
      floats; it computes, and the end-to-end scenarios are evaluated in it
      bit for bit.  Every definition of a federate is written once, over the
      interface.
    - HELICS and the GridPACK power-flow application are external.  What they
      answer in one loop iteration (the granted time, the values read, the
      solved voltage, or a raised exception) is a [tick] of a script; a
      federate is a function of the script.  Quantifying over scripts covers
      every behaviour of the two collaborators.
    - A run yields the trace of the calls it made and how it ended.  File
      output (the CSV logs) and console output are not modelled.
    - Of the destructors, the one a handler can observe is modelled:
      gridpack_federate.cpp declares its federate inside the [try] block, so
      the object is destroyed when the block is left, before the handler
      runs.  The other four federates have no handler: an exception that
      leaves their [main] terminates the process.
    - The product of two complex numbers is its formula.  The library's
      recovery of an infinity from a (NaN, NaN) product of doubles is not
      modelled, so the values of products are stated in exact arithmetic. *)

From Stdlib Require Import ZArith QArith Qabs Reals Lra Lia List Bool String.
From Stdlib Require Import Floats.PrimFloat Floats.FloatOps Floats.SpecFloat.
From Stdlib Require Import Numbers.Cyclic.Int63.Uint63.
Import ListNotations.

Set Implicit Arguments.

(* ================================================================= *)
(** ** 1. The arithmetic of [double] *)

Declare Scope double_scope.
Delimit Scope double_scope with D.

Class Scalar (T : Type) : Type := {
  lit  : Q -> T;            (* a decimal literal of the source text *)
  dadd : T -> T -> T;
  dsub : T -> T -> T;
  dmul : T -> T -> T;
  ddiv : T -> T -> T;
  dlt  : T -> T -> bool
}.

Arguments lit {T _} q%_Q.

Notation "x + y" := (dadd x y) : double_scope.
Notation "x - y" := (dsub x y) : double_scope.
Notation "x * y" := (dmul x y) : double_scope.
Notation "x / y" := (ddiv x y) : double_scope.
Notation "x <? y" := (dlt x y) : double_scope.

(** Exact arithmetic. *)
Definition Rltb (x y : R) : bool := if Rlt_dec x y then true else false.

#[export] Instance R_scalar : Scalar R :=
  {| lit := Q2R; dadd := Rplus; dsub := Rminus; dmul := Rmult;
     ddiv := Rdiv; dlt := Rltb |}.

(** IEEE 754 binary64.  A literal [n/d] with [n] and [d] below [2^53] is the
    correctly rounded quotient of two exact integers, which is the double the
    compiler reads the literal as. *)
Definition binary64 : Type := PrimFloat.float.

Definition Z2float (z : Z) : binary64 :=
  match z with
  | Z0 => PrimFloat.zero
  | Zpos _ => PrimFloat.of_uint63 (Uint63.of_Z z)
  | Zneg p => PrimFloat.opp (PrimFloat.of_uint63 (Uint63.of_Z (Zpos p)))
  end.

Definition Q2float (q : Q) : binary64 :=
  PrimFloat.div (Z2float (Qnum q)) (Z2float (Zpos (Qden q))).

#[export] Instance binary64_scalar : Scalar binary64 :=
  {| lit := Q2float; dadd := PrimFloat.add; dsub := PrimFloat.sub;
     dmul := PrimFloat.mul; ddiv := PrimFloat.div; dlt := PrimFloat.ltb |}.

(** The rational a finite double stands for ([None] for infinities and NaN). *)
Definition float2Q (f : binary64) : option Q :=
  match Prim2SF f with
  | S754_zero _ => Some 0%Q
  | S754_finite s m e =>
      let mag := (inject_Z (Zpos m) * Qpower 2 e)%Q in
      Some (if s then Qopp mag else mag)
  | _ => None
  end.

(* ================================================================= *)
(** ** 2. [std::complex<double>] *)

Section Complex.
Context {T : Type} `{Scalar T}.
Local Open Scope double_scope.

Record complex : Type := Complex { real : T; imag : T }.

(* operator/(const complex<T>&, const T&) *)
Definition cdiv_scalar (z : complex) (d : T) : complex :=
  Complex (real z / d) (imag z / d).

(* operator*(const complex<T>&, const T&) *)
Definition cmul_scalar (z : complex) (d : T) : complex :=
  Complex (real z * d) (imag z * d).

(* operator*(const complex<T>&, const complex<T>&): the product by its
   formula.  For doubles the library computes the same formula and, when
   both parts come out as NaN, recomputes the product to recover an
   infinity.  That recovery is not modelled: [cmul] is the program's product
   in exact arithmetic, and in binary64 whenever the formula does not give
   (NaN, NaN).  What is proved below about the values of [cmul] is proved in
   exact arithmetic. *)
Definition cmul (z w : complex) : complex :=
  Complex (real z * real w - imag z * imag w)
          (real z * imag w + imag z * real w).
End Complex.

Arguments complex T : clear implicits.

(* ================================================================= *)
(** ** 3. The calls a federate makes, and the monad they run in *)

(** What a call into HELICS or into the solver comes back with. *)
Inductive reply (A : Type) : Type :=
| Ok (a : A)
| Raise.                     (* the call throws *)

Arguments Raise {A}.

Inductive value (T : Type) : Type :=
| VDouble (x : T)
| VComplex (z : complex T).

Inductive event (T : Type) : Type :=
| Setup (r : reply unit)     (* what precedes the first publication: registrations,
                                enterExecutingMode and, where [Create] is not used,
                                the creation of the federate *)
| RequestTime (requested : T) (granted : reply T)
| GetValue (key : string) (v : reply (value T))
| Execute (app : string) (voltage power : complex T) (solved : reply (complex T))
| Publish (key : string) (v : value T) (r : reply unit)
| Finalize (r : reply unit)
| Create (r : reply unit)    (* helicscpp::ValueFederate fed(name, fi), with its fi *)
| Destroy                    (* the destructor of that object; it does not throw *)
| MathFinalize (r : reply unit).   (* gridpack::math::Finalize() *)

(** How a computation ends: it returns, it throws, or it never comes back
    from a call (the script has no further answer). *)
Inductive result (A : Type) : Type :=
| Ret (a : A)
| Throw
| Pending.

Arguments Throw {A}.
Arguments Pending {A}.
Arguments Setup {T} r.
Arguments Finalize {T} r.
Arguments Create {T} r.
Arguments Destroy {T}.
Arguments MathFinalize {T} r.

Section Monad.
Context {T : Type}.

Definition M (A : Type) : Type := (list (event T) * result A)%type.

Definition ret {A} (a : A) : M A := ([], Ret a).

Definition bind {A B} (m : M A) (k : A -> M B) : M B :=
  match m with
  | (tr, Ret a) => let (tr', r) := k a in (tr ++ tr', r)
  | (tr, Throw) => (tr, Throw)
  | (tr, Pending) => (tr, Pending)
  end.

(* try { m } catch (...) { h } *)
Definition try_catch {A} (m : M A) (h : M A) : M A :=
  match m with
  | (tr, Throw) => let (tr', r) := h in (tr ++ tr', r)
  | other => other
  end.

(** The rest of the block in which the federate object was declared: the
    object is destroyed when the block is left, at its end or by an
    exception on its way to the handler.  A block that is never left
    destroys nothing. *)
Definition in_scope {A} (m : M A) : M A :=
  match m with
  | (tr, Ret a) => (tr ++ [Destroy], Ret a)
  | (tr, Throw) => (tr ++ [Destroy], Throw)
  | (tr, Pending) => (tr, Pending)
  end.

Definition call {A} (ev : reply A -> event T) (r : reply A) : M A :=
  ([ev r], match r with Ok a => Ret a | Raise => Throw end).

Definition setup : reply unit -> M unit := call Setup.
Definition requestTime (t : T) : reply T -> M T := call (RequestTime t).
Definition publish (key : string) (v : value T) : reply unit -> M unit :=
  call (Publish key v).
Definition finalize : reply unit -> M unit := call Finalize.
Definition create : reply unit -> M unit := call Create.
Definition mathFinalize : reply unit -> M unit := call MathFinalize.

(** Modelled from the spec: [gridpack::powerflow::PFApp::execute] (pf_app.hpp)
    is not among the sources.  It is the specification's external solver,
    "execute(injected_power) -> converged_voltage, synchronous, may fail with
    a non-convergence signal": the call [app.execute(argc, argv, voltage, Sa)]
    leaves the solved voltage in [voltage], or fails.  [main] looks at nothing
    the call returns, so the only failure that reaches it is an exception. *)
Definition execute (app : string) (voltage power : complex T) :
  reply (complex T) -> M (complex T) := call (Execute app voltage power).

Definition reply_map {A B} (f : A -> B) (r : reply A) : reply B :=
  match r with Ok a => Ok (f a) | Raise => Raise end.

(* Input::getDouble *)
Definition getDouble (key : string) : reply T -> M T :=
  call (fun r => GetValue key (reply_map (@VDouble T) r)).

(* Input::getComplex, Input::getValue<std::complex<double>> *)
Definition getComplex (key : string) : reply (complex T) -> M (complex T) :=
  call (fun r => GetValue key (reply_map (@VComplex T) r)).

(* std::vector<double>::back; the vectors of the federates are never empty *)
Definition back `{Scalar T} (v : list T) : T := last v (lit 0).
End Monad.

Arguments M T A : clear implicits.

Declare Scope fed_scope.
Delimit Scope fed_scope with fed.
Notation "x <- m ;; k" := (bind m (fun x => k))
  (at level 61, m at next level, right associativity) : fed_scope.
Notation "m ;;; k" := (bind m (fun _ => k))
  (at level 61, right associativity) : fed_scope.

(** How the process ends.  An exception that leaves [main] reaches
    [std::terminate]: the process is aborted and does not exit with 0. *)
Inductive outcome : Type :=
| Exited (code : Z)
| Terminated
| Running.                   (* blocked in a call for ever *)

Definition process {T} (m : M T Z) : outcome :=
  match snd m with
  | Ret code => Exited code
  | Throw => Terminated
  | Pending => Running
  end.

(* ================================================================= *)
(** ** 4. The simulation loop

    [while (grantedtime < total_interval) { ... }], one tick of the script
    for each iteration. *)

Section WhileLoop.
Context {T : Type} `{Scalar T} {Tick Locals : Type}.
Variable total_interval : T.
Variable grantedtime : Locals -> T.
Variable iteration : Tick -> Locals -> M T Locals.
Local Open Scope double_scope.
Local Open Scope fed_scope.

Fixpoint while_loop (script : list Tick) (s : Locals) : M T Locals :=
  if grantedtime s <? total_interval then
    match script with
    | [] => ([], Pending)
    | tk :: script' => s' <- iteration tk s ;; while_loop script' s'
    end
  else ret s.
End WhileLoop.

(* ================================================================= *)
(** ** 5. lc-tank: Capacitor.cpp and Inductor.cpp

    The two files are one program up to the constants of [element]. *)

Module LCTank.
Section Federate.
Context {T : Type} `{Scalar T}.
Local Open Scope double_scope.
Local Open Scope fed_scope.

Record element : Type := {
  numerator : T;           (* -1.0 (Capacitor), 1.0 (Inductor) *)
  element_value : T;       (* c_value, l_value *)
  seed : T;                (* voltage.push_back(0.0), current.push_back(1.0) *)
  own_key : string;        (* the publication *)
  peer_key : string;       (* the subscription *)
  period : T;
  total_interval : T
}.

Record locals : Type := {
  grantedtime : T;
  peer_input : T;          (* inductor_current, capacitor_voltage *)
  delta : T;               (* delta_v, delta_i *)
  time_sim : list T;
  series : list T          (* voltage, current *)
}.

Record tick : Type := {
  grant : reply T;         (* requestTime *)
  peer : reply T;          (* getDouble *)
  pub : reply unit         (* publish *)
}.

Variable el : element.

(* delta_v = (-1.0 / c_value) * inductor_current * period; *)
Definition increment (x dt : T) : T :=
  (numerator el / element_value el) * x * dt.

(* voltage.back() + delta_v *)
Definition advance (prev_state x dt : T) : T :=
  prev_state + increment x dt.

(* the body of [while (grantedtime < total_interval)] *)
Definition iteration (tk : tick) (s : locals) : M T locals :=
  (* grantedtime = Capacitor.requestTime(grantedtime+period); *)
  g <- requestTime (grantedtime s + period el) (grant tk) ;;
  (* inductor_current = Il_id.getDouble(); *)
  x <- getDouble (peer_key el) (peer tk) ;;
  (* time_sim.push_back(grantedtime); *)
  let time_sim' := time_sim s ++ [g] in
  (* voltage.push_back(voltage.back() + delta_v); *)
  let series' := series s ++ [advance (back (series s)) x (period el)] in
  (* Vc_id.publish(voltage.back()); *)
  publish (own_key el) (VDouble (back series')) (pub tk) ;;;
  ret {| grantedtime := g; peer_input := x;
         delta := increment x (period el);
         time_sim := time_sim'; series := series' |}.

Definition loop : list tick -> locals -> M T locals :=
  while_loop (total_interval el) grantedtime iteration.

Definition initial : locals :=
  {| grantedtime := lit 0; peer_input := lit 0; delta := lit 0;
     time_sim := [lit 0]; series := [seed el] |}.

Record script : Type := {
  boot : reply unit;
  first_pub : reply unit;
  ticks : list tick;
  fin : reply unit
}.

Definition main (sc : script) : M T Z :=
  setup (boot sc) ;;;
  publish (own_key el) (VDouble (back (series initial))) (first_pub sc) ;;;
  _ <- loop (ticks sc) initial ;;
  finalize (fin sc) ;;;
  ret 0%Z.
End Federate.

Arguments element T : clear implicits.
Arguments locals T : clear implicits.
Arguments tick T : clear implicits.
Arguments script T : clear implicits.

Section Constants.
Context {T : Type} `{Scalar T}.

Definition capacitor (c_value period total_interval : T) : element T :=
  {| numerator := lit (-1); element_value := c_value; seed := lit 0;
     own_key := "Vc"; peer_key := "Inductor/Il";
     period := period; total_interval := total_interval |}.

Definition inductor (l_value period total_interval : T) : element T :=
  {| numerator := lit 1; element_value := l_value; seed := lit 1;
     own_key := "Il"; peer_key := "Capacitor/Vc";
     period := period; total_interval := total_interval |}.

(* the constants of Capacitor.cpp and of Inductor.cpp *)
Definition Capacitor : element T :=
  capacitor (lit 0.159) (lit 100e-6) (lit 10).
Definition Inductor : element T :=
  inductor (lit 0.159) (lit 100e-6) (lit 10).

(** An iteration in which no call throws. *)
Definition answers (granted x : T) : tick T :=
  {| grant := Ok granted; peer := Ok x; pub := Ok tt |}.
End Constants.
End LCTank.

(* ================================================================= *)
(** ** 6. simple-cosim: gridpack_federate.cpp *)

Module SimpleCosim.
Section Federate.
Context {T : Type} `{Scalar T}.
Local Open Scope double_scope.
Local Open Scope fed_scope.

Record tick : Type := {
  grant : reply T;
  load_current : reply (complex T);
  pub_A : reply unit;
  pub_B : reply unit;
  pub_C : reply unit
}.

(* the body of [for (int t = 0; t < 10; ++t)]; the value of
   [fed.requestTime(t + 1.0)] is discarded *)
Definition iteration (t : Z) (tk : tick) : M T unit :=
  requestTime (lit (inject_Z t) + lit 1) (grant tk) ;;;
  load_current <- getComplex "load_meter/current" (load_current tk) ;;
  let voltage_A :=
    Complex (real load_current * lit 1.1) (imag load_current * lit 1.1) in
  let voltage_B :=
    Complex (real load_current * lit 1.2) (imag load_current * lit 1.2) in
  let voltage_C :=
    Complex (real load_current * lit 1.3) (imag load_current * lit 1.3) in
  publish "gridpack/voltage_A" (VComplex voltage_A) (pub_A tk) ;;;
  publish "gridpack/voltage_B" (VComplex voltage_B) (pub_B tk) ;;;
  publish "gridpack/voltage_C" (VComplex voltage_C) (pub_C tk).

Fixpoint loop (t : Z) (script : list tick) : M T unit :=
  if (t <? 10)%Z then
    match script with
    | [] => ([], Pending)
    | tk :: script' => iteration t tk ;;; loop (t + 1) script'
    end
  else ret tt.

Record script : Type := {
  make : reply unit;     (* lines 12-17: fi and the constructor of fed *)
  boot : reply unit;     (* lines 20-32: registrations, enterExecutingMode *)
  ticks : list tick;
  fin : reply unit
}.

(* the [try] block after the declaration of [fed] *)
Definition with_fed (sc : script) : M T unit :=
  setup (boot sc) ;;;
  loop 0 (ticks sc) ;;;
  finalize (fin sc).

(* the [try] block: [fed] lives from its declaration to the end of the
   block, and is destroyed before the handler runs *)
Definition body (sc : script) : M T unit :=
  create (make sc) ;;;
  in_scope (with_fed sc).

(* try { ... } catch (const helicscpp::HelicsException& e) { ...; return -1; }
   return 0; *)
Definition main (sc : script) : M T Z :=
  try_catch (body sc ;;; ret 0%Z) (ret (-1)%Z).
End Federate.

Arguments tick T : clear implicits.
Arguments script T : clear implicits.

(** An iteration in which no call throws. *)
Definition answers {T} (granted : T) (current : complex T) : tick T :=
  {| grant := Ok granted; load_current := Ok current;
     pub_A := Ok tt; pub_B := Ok tt; pub_C := Ok tt |}.
End SimpleCosim.

(* ================================================================= *)
(** ** 7. pf-cosim: gpk/gpk-left-fed.cpp *)

Module PfCosim.
Section Federate.
Context {T : Type} `{Scalar T}.
Local Open Scope double_scope.
Local Open Scope fed_scope.

Record locals : Type := {
  grantedtime : T;
  Sa : complex T;
  voltage : complex T
}.

Record tick : Type := {
  grant : reply T;
  sa : reply (complex T);      (* sa_id.getValue<std::complex<double>>() *)
  solved : reply (complex T);  (* what app.execute leaves in [voltage] *)
  pub : reply unit
}.

Definition period : T := lit 1.
Definition total_interval : T := lit 10.

Definition iteration (tk : tick) (s : locals) : M T locals :=
  g <- requestTime (grantedtime s + period) (grant tk) ;;
  raw <- getComplex "gpk_gld_right_fed/sa" (sa tk) ;;
  let Sa' := cdiv_scalar raw (lit 1000000) in
  voltage' <- execute "app" (voltage s) Sa' (solved tk) ;;
  publish "Vc" (VComplex (cmul_scalar voltage' (lit 69000))) (pub tk) ;;;
  ret {| grantedtime := g; Sa := Sa'; voltage := voltage' |}.

Definition loop : list tick -> locals -> M T locals :=
  while_loop total_interval grantedtime iteration.

Definition initial : locals :=
  {| grantedtime := lit 0;
     Sa := Complex (lit 0) (lit 0);
     voltage := Complex (lit 1) (lit 0) |}.

Record script : Type := {
  boot : reply unit;
  first_pub : reply unit;
  ticks : list tick;
  math_fin : reply unit;   (* gridpack::math::Finalize() *)
  fin : reply unit
}.

Definition main (sc : script) : M T Z :=
  setup (boot sc) ;;;
  publish "Vc" (VComplex (cmul_scalar (voltage initial) (lit 69000)))
          (first_pub sc) ;;;
  _ <- loop (ticks sc) initial ;;
  mathFinalize (math_fin sc) ;;;
  finalize (fin sc) ;;;
  ret 0%Z.
End Federate.

Arguments locals T : clear implicits.
Arguments tick T : clear implicits.
Arguments script T : clear implicits.

(** An iteration in which no call throws. *)
Definition answers {T} (granted : T) (raw solved : complex T) : tick T :=
  {| grant := Ok granted; sa := Ok raw; solved := Ok solved; pub := Ok tt |}.
End PfCosim.

(* ================================================================= *)
(** ** 8. 2bus-13bus: gpk-left-fed.cpp *)

Module TwoBus.
Section Federate.
Context {T : Type} `{Scalar T}.
Local Open Scope double_scope.
Local Open Scope fed_scope.

Record locals : Type := {
  grantedtime : T;
  Sa : complex T; Sb : complex T; Sc : complex T;
  Va : complex T; Vb : complex T; Vc : complex T
}.

Record tick : Type := {
  grant : reply T;
  sa : reply (complex T); sb : reply (complex T); sc : reply (complex T);
  solved_A : reply (complex T);   (* what app_A.execute leaves in [Va] *)
  solved_B : reply (complex T);
  solved_C : reply (complex T);
  pub_a : reply unit; pub_b : reply unit; pub_c : reply unit
}.

Definition period : T := lit 1.
Definition total_interval : T := lit 10.
Definition r120 : complex T := Complex (lit (-0.5)) (lit (-0.866025)).

Definition iteration (tk : tick) (s : locals) : M T locals :=
  g <- requestTime (grantedtime s + period) (grant tk) ;;
  raw_a <- getComplex "gld_hlc_conn/Sa" (sa tk) ;;
  let Sa' := cdiv_scalar raw_a (lit 100000000) in
  raw_b <- getComplex "gld_hlc_conn/Sb" (sb tk) ;;
  let Sb' := cdiv_scalar raw_b (lit 100000000) in
  raw_c <- getComplex "gld_hlc_conn/Sc" (sc tk) ;;
  let Sc' := cdiv_scalar raw_c (lit 100000000) in
  Va' <- execute "app_A" (Va s) Sa' (solved_A tk) ;;
  Vb' <- execute "app_B" (Vb s) Sb' (solved_B tk) ;;
  Vc' <- execute "app_C" (Vc s) Sc' (solved_C tk) ;;
  let Vb'' := cmul Vb' r120 in
  let Vc'' := cmul (cmul Vc' r120) r120 in
  publish "Va" (VComplex (cmul_scalar Va' (lit 2400))) (pub_a tk) ;;;
  publish "Vb" (VComplex (cmul_scalar Vb'' (lit 2400))) (pub_b tk) ;;;
  publish "Vc" (VComplex (cmul_scalar Vc'' (lit 2400))) (pub_c tk) ;;;
  ret {| grantedtime := g; Sa := Sa'; Sb := Sb'; Sc := Sc';
         Va := Va'; Vb := Vb''; Vc := Vc'' |}.

Definition loop : list tick -> locals -> M T locals :=
  while_loop total_interval grantedtime iteration.

Definition initial : locals :=
  {| grantedtime := lit 0;
     Sa := Complex (lit 0) (lit 0);
     Sb := Complex (lit 0) (lit 0);
     Sc := Complex (lit 0) (lit 0);
     Va := Complex (lit 1) (lit 0);
     Vb := Complex (lit (-0.5)) (lit (-0.866025));
     Vc := Complex (lit (-0.5)) (lit 0.866025) |}.

Record script : Type := {
  boot : reply unit;
  first_pub_a : reply unit;
  first_pub_b : reply unit;
  first_pub_c : reply unit;
  ticks : list tick;
  math_fin : reply unit;   (* gridpack::math::Finalize() *)
  fin : reply unit
}.

Definition main (sc : script) : M T Z :=
  setup (boot sc) ;;;
  publish "Va" (VComplex (cmul_scalar (Va initial) (lit 2401.78)))
          (first_pub_a sc) ;;;
  publish "Vb" (VComplex (cmul_scalar (Vb initial) (lit 2401.78)))
          (first_pub_b sc) ;;;
  publish "Vc" (VComplex (cmul_scalar (Vc initial) (lit 2401.78)))
          (first_pub_c sc) ;;;
  _ <- loop (ticks sc) initial ;;
  mathFinalize (math_fin sc) ;;;
  finalize (fin sc) ;;;
  ret 0%Z.
End Federate.

Arguments locals T : clear implicits.
Arguments tick T : clear implicits.
Arguments script T : clear implicits.

(** An iteration in which no call throws. *)
Definition answers {T} (granted : T) (raw_a raw_b raw_c : complex T)
  (solved_a solved_b solved_c : complex T) : tick T :=
  {| grant := Ok granted; sa := Ok raw_a; sb := Ok raw_b; sc := Ok raw_c;
     solved_A := Ok solved_a; solved_B := Ok solved_b; solved_C := Ok solved_c;
     pub_a := Ok tt; pub_b := Ok tt; pub_c := Ok tt |}.
End TwoBus.

(* ================================================================= *)
(** ** 9. What a trace shows *)

Section Traces.
Context {T : Type}.

(** The (requested, granted) pair of every time request that returned. *)
Fixpoint time_calls (tr : list (event T)) : list (T * T) :=
  match tr with
  | [] => []
  | RequestTime req (Ok g) :: tr' => (req, g) :: time_calls tr'
  | _ :: tr' => time_calls tr'
  end.

Definition requests (tr : list (event T)) : list T := map fst (time_calls tr).
Definition grants (tr : list (event T)) : list T := map snd (time_calls tr).

(** The real values read from subscriptions. *)
Fixpoint double_reads (tr : list (event T)) : list T :=
  match tr with
  | [] => []
  | GetValue _ (Ok (VDouble x)) :: tr' => x :: double_reads tr'
  | _ :: tr' => double_reads tr'
  end.

(** The values handed to [publish] under a key, in order. *)
Fixpoint published (key : string) (tr : list (event T)) : list (value T) :=
  match tr with
  | [] => []
  | Publish key' v _ :: tr' =>
      if String.eqb key key' then v :: published key tr' else published key tr'
  | _ :: tr' => published key tr'
  end.

(** What the solver was called with, and what it answered. *)
Fixpoint executed (app : string) (tr : list (event T))
  : list (complex T * reply (complex T)) :=
  match tr with
  | [] => []
  | Execute app' _ power r :: tr' =>
      if String.eqb app app' then (power, r) :: executed app tr'
      else executed app tr'
  | _ :: tr' => executed app tr'
  end.

(** Did the call throw? *)
Definition raised (e : event T) : bool :=
  match e with
  | Setup Raise | RequestTime _ Raise | GetValue _ Raise
  | Execute _ _ _ Raise | Publish _ _ Raise | Finalize Raise
  | Create Raise | MathFinalize Raise => true
  | _ => false
  end.

Definition fatal (tr : list (event T)) : bool := existsb raised tr.

(** Where an iteration stands.  A trace of the loop is causally ordered
    when every iteration is: the time request, then the reads (and the
    solver runs they feed), then the publications; a call that throws is
    the last one. *)
Inductive phase : Type := Idle | Granted | HasRead | Published | Stopped.

Definition next_phase (p : phase) (e : event T) : option phase :=
  match e, p with
  | RequestTime _ (Ok _), (Idle | Published) => Some Granted
  | RequestTime _ Raise, (Idle | Published) => Some Stopped
  | GetValue _ (Ok _), (Granted | HasRead) => Some HasRead
  | GetValue _ Raise, (Granted | HasRead) => Some Stopped
  | Execute _ _ _ (Ok _), HasRead => Some HasRead
  | Execute _ _ _ Raise, HasRead => Some Stopped
  | Publish _ _ (Ok _), (HasRead | Published) => Some Published
  | Publish _ _ Raise, (HasRead | Published) => Some Stopped
  | _, _ => None
  end.

Fixpoint run_phase (p : phase) (tr : list (event T)) : option phase :=
  match tr with
  | [] => Some p
  | e :: tr' =>
      match next_phase p e with
      | Some p' => run_phase p' tr'
      | None => None
      end
  end.

Definition causal (tr : list (event T)) : bool :=
  match run_phase Idle tr with Some _ => true | None => false end.
End Traces.

(** How a computation relates to the trace it leaves. *)
Section Conduct.
Context {T : Type}.

(** An iteration is ordered when, started where the one before ended, it
    goes through request, reads and publications and ends having published,
    or stops at the call that throws. *)
Definition ordered {A} (m : M T A) : Prop :=
  forall p, p = Idle \/ p = Published ->
    match m with
    | (tr, Ret _) => run_phase p tr = Some Published
    | (tr, Throw) => run_phase p tr = Some Stopped
    | (tr, Pending) => False
    end.

(** The trace and the way the computation ended agree: a call threw exactly
    when the computation threw. *)
Definition sound {A} (m : M T A) : Prop :=
  match m with
  | (tr, Throw) => fatal tr = true
  | (tr, _) => fatal tr = false
  end.

(** A computation that, when it returns, returns [c]. *)
Definition returns_only {A} (c : A) (m : M T A) : Prop :=
  forall a, snd m = Ret a -> a = c.
End Conduct.

(* ================================================================= *)
(** ** 10. The words of the specification *)

(** Sums and chains of reals. *)
Definition Rsum (l : list R) : R := fold_right Rplus 0%R l.

(** The increments an integrator would add if it used the elapsed time:
    [k * x_i * (t_i - t_(i-1))] for the steps [(t_i, x_i)]. *)
Fixpoint elapsed_increments (k t_prev : R) (steps : list (R * R)) : list R :=
  match steps with
  | [] => []
  | (t, x) :: rest => (k * x * (t - t_prev))%R :: elapsed_increments k t rest
  end.

(** Every grant is one [period] after the one before. *)
Fixpoint evenly_spaced (period t_prev : R) (ts : list R) : Prop :=
  match ts with
  | [] => True
  | t :: rest => (t - t_prev = period)%R /\ evenly_spaced period t rest
  end.

Fixpoint nondecreasing (t_prev : R) (ts : list R) : Prop :=
  match ts with
  | [] => True
  | t :: rest => (t_prev <= t)%R /\ nondecreasing t rest
  end.

(** What the substrate promises about a run that starts at time [t_prev]:
    every granted time is no earlier than the time before it and no later
    than the time requested. *)
Fixpoint within_contract (t_prev : R) (calls : list (R * R)) : Prop :=
  match calls with
  | [] => True
  | (req, g) :: rest => (t_prev <= g <= req)%R /\ within_contract g rest
  end.

(** What the loop asks for: always one [period] past its current time. *)
Fixpoint requests_follow (period t_prev : R) (calls : list (R * R)) : Prop :=
  match calls with
  | [] => True
  | (req, g) :: rest => req = (t_prev + period)%R /\ requests_follow period g rest
  end.

(** simple-cosim as the specification words it: in iteration [t] the time
    [t + 1] is requested, one load current [s] is read, and the three
    voltages published are [1.1 * s], [1.2 * s] and [1.3 * s], component by
    component. *)
Definition scaled (k : R) (s : complex R) : complex R :=
  Complex (k * real s)%R (k * imag s)%R.

Definition simple_step (t : Z) (reply : R * complex R) : list (event R) :=
  let (granted, s) := reply in
  [RequestTime (IZR t + 1)%R (Ok granted);
   GetValue "load_meter/current" (Ok (VComplex s));
   Publish "gridpack/voltage_A" (VComplex (scaled 1.1 s)) (Ok tt);
   Publish "gridpack/voltage_B" (VComplex (scaled 1.2 s)) (Ok tt);
   Publish "gridpack/voltage_C" (VComplex (scaled 1.3 s)) (Ok tt)].

Definition simple_tick (r : R * complex R) : SimpleCosim.tick R :=
  SimpleCosim.answers (fst r) (snd r).

Fixpoint simple_steps (t : Z) (replies : list (R * complex R)) : list (event R) :=
  match replies with
  | [] => []
  | r :: rest => simple_step t r ++ simple_steps (t + 1) rest
  end.

(* ================================================================= *)
(** ** 11. Concrete runs *)

Module Runs.
(** A capacitor as in Capacitor.cpp with a horizon of two periods, and two
    steps granted as requested. *)
Definition two_periods : LCTank.element R :=
  LCTank.capacitor 0.159%R 100e-6%R 200e-6%R.
Definition two_steps : list (LCTank.tick R) :=
  [LCTank.answers 100e-6%R 1%R; LCTank.answers 200e-6%R 1%R].

(** pf-cosim: 5 MVA read and 1.02 per unit solved in every step. *)
Definition pf_tick (granted : R) : PfCosim.tick R :=
  PfCosim.answers granted (Complex 5000000%R 0%R) (Complex 1.02%R 0%R).

(** every request granted as made *)
Definition pf_on_time : list (PfCosim.tick R) :=
  map pf_tick [1; 2; 3; 4; 5; 6; 7; 8; 9; 10]%R.

(** the first request granted half a period early, the later ones a whole
    period after the grant before *)
Definition pf_half_period_off : list (PfCosim.tick R) :=
  map pf_tick [0.5; 1.5; 2.5; 3.5; 4.5; 5.5; 6.5; 7.5; 8.5; 9.5; 10.5]%R.

(** 2bus-13bus: the same for its three phases. *)
Definition twobus_tick (granted : R) : TwoBus.tick R :=
  TwoBus.answers granted
    (Complex 5000000%R 0%R) (Complex 5000000%R 0%R) (Complex 5000000%R 0%R)
    (Complex 1.02%R 0%R) (Complex 1.02%R 0%R) (Complex 1.02%R 0%R).

Definition twobus_on_time : list (TwoBus.tick R) :=
  map twobus_tick [1; 2; 3; 4; 5; 6; 7; 8; 9; 10]%R.

(** 2bus-13bus: a step in which phase B solves to 0.98 per unit while phase A
    solves to 1.0. *)
Definition twobus_unbalanced : TwoBus.tick R :=
  TwoBus.answers 1%R
    (Complex 5000000%R 0%R) (Complex 9000000%R 0%R) (Complex 5000000%R 0%R)
    (Complex 1%R 0%R) (Complex 0.98%R 0%R) (Complex 1%R 0%R).

(** simple-cosim: ten iterations in which the substrate grants time 0 every
    time and the load current read is 1 + 2j. *)
Definition simple_stalled : list (R * complex R) :=
  repeat (0%R, Complex 1%R 2%R) 10.

(** pf-cosim in binary64, with answers that are wrong but are answers: a
    solved voltage that is no number, and a granted time far past the
    horizon. *)
Definition no_number : complex binary64 := Complex PrimFloat.nan PrimFloat.nan.
Definition far_future : binary64 := lit 9223372036.854774.

Definition not_a_number (v : value binary64) : bool :=
  match v with
  | VDouble x => PrimFloat.is_nan x
  | VComplex z => PrimFloat.is_nan (real z) || PrimFloat.is_nan (imag z)
  end.

Definition pf_tick64 (granted : binary64) (solved : complex binary64)
  : PfCosim.tick binary64 :=
  PfCosim.answers granted (Complex (lit 5000000) (lit 0)) solved.

(** every request granted as made, and no number solved in any step *)
Definition pf_unsolved : PfCosim.script binary64 :=
  {| PfCosim.boot := Ok tt; PfCosim.first_pub := Ok tt;
     PfCosim.ticks :=
       map (fun g => pf_tick64 (lit g) no_number) [1; 2; 3; 4; 5; 6; 7; 8; 9; 10]%Q;
     PfCosim.math_fin := Ok tt; PfCosim.fin := Ok tt |}.

(** the first request granted far past the horizon *)
Definition pf_cut_short : PfCosim.script binary64 :=
  {| PfCosim.boot := Ok tt; PfCosim.first_pub := Ok tt;
     PfCosim.ticks := [pf_tick64 far_future (Complex (lit 1.02) (lit 0))];
     PfCosim.math_fin := Ok tt; PfCosim.fin := Ok tt |}.

(** the same for Capacitor.cpp, with a current of 1 read *)
Definition capacitor_cut_short : LCTank.script binary64 :=
  {| LCTank.boot := Ok tt; LCTank.first_pub := Ok tt;
     LCTank.ticks := [LCTank.answers far_future (lit 1)];
     LCTank.fin := Ok tt |}.
End Runs.

(* ================================================================= *)
(** ** 12. More of what a trace shows *)

Section MoreTraces.
Context {T : Type}.

(** The times asked for, in order, also by a request that threw. *)
Fixpoint requested (tr : list (event T)) : list T :=
  match tr with
  | [] => []
  | RequestTime req _ :: tr' => req :: requested tr'
  | _ :: tr' => requested tr'
  end.

(** How often the federate object was destroyed. *)
Fixpoint destroys (tr : list (event T)) : nat :=
  match tr with
  | [] => O
  | Destroy :: tr' => S (destroys tr')
  | _ :: tr' => destroys tr'
  end.

(** What the calls of [finalize] came back with, in order. *)
Fixpoint finalize_calls (tr : list (event T)) : list (reply unit) :=
  match tr with
  | [] => []
  | Finalize r :: tr' => r :: finalize_calls tr'
  | _ :: tr' => finalize_calls tr'
  end.

(** The voltage a solver was started from, and what it answered. *)
Fixpoint solves (app : string) (tr : list (event T))
  : list (complex T * reply (complex T)) :=
  match tr with
  | [] => []
  | Execute app' voltage _ r :: tr' =>
      if String.eqb app app' then (voltage, r) :: solves app tr'
      else solves app tr'
  | _ :: tr' => solves app tr'
  end.

(** Every solve starts from what the program made of the answer before:
    [carry] of it; the first one starts from [v0]. *)
Fixpoint warm_started (carry : complex T -> complex T) (v0 : complex T)
  (calls : list (complex T * reply (complex T))) : Prop :=
  match calls with
  | [] => True
  | (voltage, r) :: rest =>
      voltage = v0 /\
      match r with
      | Ok v => warm_started carry (carry v) rest
      | Raise => rest = []
      end
  end.
End MoreTraces.

(** The requests of simple-cosim: [t + 1.0] for [t], [t + 1], ..., each
    with [t < 10]. *)
Fixpoint counting_from {T} `{Scalar T} (t : Z) (reqs : list T) : Prop :=
  match reqs with
  | [] => True
  | r :: rest =>
      (t < 10)%Z /\ r = (lit (inject_Z t) + lit 1)%D /\ counting_from (t + 1) rest
  end.

(** Scripts in which every request is granted as made: step [j] is granted
    the time [j * period]. *)
Definition lc_on_time (el : LCTank.element R) (x : nat -> R) (j : nat)
  : LCTank.tick R :=
  LCTank.answers (INR j * LCTank.period el)%R (x j).

Definition pf_on_time_tick (raw solved : nat -> complex R) (j : nat)
  : PfCosim.tick R :=
  PfCosim.answers (INR j * 1)%R (raw j) (solved j).

Definition twobus_on_time_tick (raw_a raw_b raw_c va vb vc : nat -> complex R)
  (j : nat) : TwoBus.tick R :=
  TwoBus.answers (INR j * 1)%R (raw_a j) (raw_b j) (raw_c j) (va j) (vb j) (vc j).

(** How a computation treats [finalize]. *)
Section Finalizing.
Context {T : Type}.

(** It does not call [finalize]. *)
Definition keeps_open {A} (m : M T A) : Prop := finalize_calls (fst m) = [].

(** It returns 0 after one [finalize] that succeeded, and otherwise has
    called [finalize] either not at all or once, in vain. *)
Definition closes {A} (zero : A) (m : M T A) : Prop :=
  match m with
  | (tr, Ret c) => finalize_calls tr = [Ok tt] /\ c = zero
  | (tr, Throw) => finalize_calls tr = [] \/ finalize_calls tr = [Raise]
  | (tr, Pending) => finalize_calls tr = []
  end.

(** It does not destroy the federate object. *)
Definition keeps_alive {A} (m : M T A) : Prop := destroys (fst m) = O.
End Finalizing.

(** The number of periods of Capacitor.cpp and Inductor.cpp in their
    horizon: 10 / 100e-6. *)
Definition capacitor_steps : nat := Z.to_nat 100000.

(** Scripts in which every request is granted as made in the program's own
    arithmetic: each grant is the sum [grantedtime + period] the program
    asked for, starting from the clock [t]. *)
Fixpoint lc_as_requested {T} `{Scalar T} (el : LCTank.element T) (x : nat -> T)
  (t : T) (n : nat) : list (LCTank.tick T) :=
  match n with
  | O => []
  | S n' =>
      let g := (t + LCTank.period el)%D in
      LCTank.answers g (x n') :: lc_as_requested el x g n'
  end.

(** Where the clock of such a run stands after [n] steps, and whether the
    guard of the loop held before each of them. *)
Fixpoint clock_after {T} `{Scalar T} (period : T) (n : nat) (t : T) : T :=
  match n with
  | O => t
  | S n' => clock_after period n' (t + period)%D
  end.

Fixpoint guard_held {T} `{Scalar T} (period total : T) (n : nat) (t : T) : bool :=
  match n with
  | O => true
  | S n' => if (t <? total)%D then guard_held period total n' (t + period)%D else false
  end.

Section Solved.
Context {T : Type}.

(** The answers of the solves that succeeded. *)
Fixpoint ok_answers (calls : list (complex T * reply (complex T)))
  : list (complex T) :=
  match calls with
  | [] => []
  | (_, Ok v) :: rest => v :: ok_answers rest
  | (_, Raise) :: rest => ok_answers rest
  end.

Definition solved_by (app : string) (tr : list (event T)) : list (complex T) :=
  ok_answers (solves app tr).
End Solved.

(** The squared magnitude of a complex number. *)
Definition norm2 (z : complex R) : R := (real z * real z + imag z * imag z)%R.

(* ================================================================= *)
(** * Properties *)

(* ----------------------------------------------------------------- *)
(** ** Arithmetic and lists *)

Lemma back_push {T} `{Scalar T} (v : list T) (x : T) : back (v ++ [x]) = x.
Proof. unfold back. apply last_last. Qed.

(** A literal of the source, read in [R]. *)
Ltac lit_R :=
  repeat match goal with
  | |- context [Q2R ?q] =>
      let n := eval vm_compute in (Qnum q) in
      let d := eval vm_compute in (Qden q) in
      change (Q2R q) with (IZR n * / IZR (Zpos d))%R
  end.

Lemma lit_R_0 : lit (T:=R) 0 = 0%R.
Proof. cbn. lit_R. lra. Qed.
Lemma lit_R_1 : lit (T:=R) 1 = 1%R.
Proof. cbn. lit_R. lra. Qed.
Lemma lit_R_10 : lit (T:=R) 10 = 10%R.
Proof. cbn. lit_R. lra. Qed.

Lemma Rltb_true x y : (x < y)%R -> Rltb x y = true.
Proof. unfold Rltb. destruct (Rlt_dec x y); tauto. Qed.
Lemma Rltb_false x y : (y <= x)%R -> Rltb x y = false.
Proof. unfold Rltb. destruct (Rlt_dec x y); [lra|reflexivity]. Qed.
Lemma Rltb_lt x y : Rltb x y = true -> (x < y)%R.
Proof. unfold Rltb. destruct (Rlt_dec x y); [auto|discriminate]. Qed.
Lemma Rltb_ge x y : Rltb x y = false -> (y <= x)%R.
Proof. unfold Rltb. destruct (Rlt_dec x y); [discriminate|lra]. Qed.

Lemma last_cons_default (l : list R) : forall g d, last (g :: l) d = last l g.
Proof.
  induction l as [|x l IH]; intros g d; [reflexivity|].
  change (last (g :: x :: l) d) with (last (x :: l) d).
  now rewrite (IH x d), (IH x g).
Qed.

(** The literals of the sources, as binary64 reads them. *)
Example literals_binary64 :
  lit (T:=binary64) 0.159 = 0x1.45a1cac083127p-3%float /\
  lit (T:=binary64) 100e-6 = 0x1.a36e2eb1c432dp-14%float /\
  lit (T:=binary64) 1.02 = 0x1.051eb851eb852p+0%float /\
  lit (T:=binary64) (-0.866025) = (-0x1.bb67a0f9096bcp-1)%float /\
  lit (T:=binary64) 69000 = 0x1.0d88p+16%float.
Proof. repeat split; vm_compute; reflexivity. Qed.

(* ----------------------------------------------------------------- *)
(** ** The monad and the loops *)

Section MonadFacts.
Context {T : Type}.

Lemma bind_ret_inv {A B} (m : M T A) (k : A -> M T B) tr b :
  bind m k = (tr, Ret b) ->
  exists tr1 a tr2, m = (tr1, Ret a) /\ k a = (tr2, Ret b) /\ tr = tr1 ++ tr2.
Proof.
  destruct m as [tr1 [a| |]]; cbn; try discriminate.
  destruct (k a) as [tr2 r] eqn:E. intros [= <- ->].
  exists tr1, a, tr2. auto.
Qed.

Lemma time_calls_app (tr1 tr2 : list (event T)) :
  time_calls (tr1 ++ tr2) = time_calls tr1 ++ time_calls tr2.
Proof.
  induction tr1 as [|e tr1 IH]; [reflexivity|].
  destruct e as [r|req [g|]|key v|app v p r|key v r|r|r| |r]; cbn; rewrite ?IH; reflexivity.
Qed.

Lemma grants_app (tr1 tr2 : list (event T)) :
  grants (tr1 ++ tr2) = grants tr1 ++ grants tr2.
Proof. unfold grants. now rewrite time_calls_app, map_app. Qed.

Lemma double_reads_app (tr1 tr2 : list (event T)) :
  double_reads (tr1 ++ tr2) = double_reads tr1 ++ double_reads tr2.
Proof.
  induction tr1 as [|e tr1 IH]; [reflexivity|].
  destruct e as [r|req g|key [[x|z]|]|app v p r|key v r|r|r| |r]; cbn; rewrite ?IH; reflexivity.
Qed.

Lemma run_phase_app (p : phase) (tr1 tr2 : list (event T)) :
  run_phase p (tr1 ++ tr2) =
  match run_phase p tr1 with
  | Some p' => run_phase p' tr2
  | None => None
  end.
Proof.
  revert p. induction tr1 as [|e tr1 IH]; intros p; [reflexivity|].
  cbn. destruct (next_phase p e); [apply IH|reflexivity].
Qed.

Lemma causal_true (tr : list (event T)) : run_phase Idle tr <> None -> causal tr = true.
Proof. unfold causal. destruct (run_phase Idle tr); [reflexivity|congruence]. Qed.

Lemma fatal_app (tr1 tr2 : list (event T)) :
  fatal (tr1 ++ tr2) = fatal tr1 || fatal tr2.
Proof. apply existsb_app. Qed.

End MonadFacts.

Section WhileFacts.
Context {T : Type} `{Scalar T} {Tick Locals : Type}.
Variable total_interval : T.
Variable grantedtime : Locals -> T.
Variable iteration : Tick -> Locals -> M T Locals.
Local Open Scope double_scope.

Let loop := while_loop total_interval grantedtime iteration.

Lemma while_loop_eq (script : list Tick) (s : Locals) :
  loop script s =
  if grantedtime s <? total_interval then
    match script with
    | [] => ([], Pending)
    | tk :: script' => bind (iteration tk s) (loop script')
    end
  else ret s.
Proof. destruct script; reflexivity. Qed.

(** Induction over the iterations of a loop that returns. *)
Lemma while_loop_returns (P : Locals -> list (event T) -> Locals -> Prop) :
  (forall s, (grantedtime s <? total_interval) = false -> P s [] s) ->
  (forall s tk tr1 s1 tr2 s2,
      (grantedtime s <? total_interval) = true ->
      iteration tk s = (tr1, Ret s1) ->
      P s1 tr2 s2 -> P s (tr1 ++ tr2) s2) ->
  forall script s tr s', loop script s = (tr, Ret s') -> P s tr s'.
Proof.
  intros Hexit Hstep. induction script as [|tk script IH]; intros s tr s';
    rewrite while_loop_eq; destruct (grantedtime s <? total_interval) eqn:E;
    try discriminate.
  - intros [= <- <-]. auto.
  - intros Hb. apply bind_ret_inv in Hb as (tr1 & s1 & tr2 & Hit & Hrest & ->).
    eauto.
  - intros [= <- <-]. auto.
Qed.
End WhileFacts.

Section WhileR.
Context {Tick Locals : Type}.
Variable total_interval : R.
Variable grantedtime : Locals -> R.
Variable iteration : Tick -> Locals -> M R Locals.

Lemma while_loop_step_R tk script s :
  (grantedtime s < total_interval)%R ->
  while_loop total_interval grantedtime iteration (tk :: script) s =
  bind (iteration tk s) (while_loop total_interval grantedtime iteration script).
Proof. intros Hlt. rewrite while_loop_eq. cbn [dlt R_scalar]. now rewrite Rltb_true. Qed.

Lemma while_loop_exit_R script s :
  (total_interval <= grantedtime s)%R ->
  while_loop total_interval grantedtime iteration script s = ret s.
Proof. intros Hge. rewrite while_loop_eq. cbn [dlt R_scalar]. now rewrite Rltb_false. Qed.
End WhileR.

Section ForLoop.
Context {T : Type} `{Scalar T}.

Lemma simple_loop_eq (t : Z) (script : list (SimpleCosim.tick T)) :
  SimpleCosim.loop t script =
  if (t <? 10)%Z then
    match script with
    | [] => ([], Pending)
    | tk :: script' =>
        bind (SimpleCosim.iteration t tk) (fun _ => SimpleCosim.loop (t + 1) script')
    end
  else ret tt.
Proof. destruct script; reflexivity. Qed.
End ForLoop.

(* ----------------------------------------------------------------- *)
(** ** An iteration in which no call throws *)

Section Iterations.
Import LCTank.
Local Open Scope double_scope.

(** One iteration of the loop of a reactive element, when no call throws. *)
Lemma iteration_answers {T} `{Scalar T} (el : element T) (s : locals T) (g x : T) :
  iteration el (answers g x) s =
  ([RequestTime (grantedtime s + period el) (Ok g);
    GetValue (peer_key el) (Ok (VDouble x));
    Publish (own_key el)
            (VDouble (back (series s) + numerator el / element_value el * x * period el))
            (Ok tt)],
   Ret {| grantedtime := g; peer_input := x;
          delta := numerator el / element_value el * x * period el;
          time_sim := time_sim s ++ [g];
          series := series s ++
            [back (series s) + numerator el / element_value el * x * period el] |}).
Proof.
  unfold iteration, answers, advance, increment; cbn.
  rewrite back_push. reflexivity.
Qed.

Lemma iteration_ret_inv {T} `{Scalar T} (el : element T) tk s tr s' :
  iteration el tk s = (tr, Ret s') -> exists g x, tk = answers g x.
Proof.
  destruct tk as [[g|] [x|] [[]|]]; cbn; try discriminate.
  intros _. exists g, x. reflexivity.
Qed.
End Iterations.

Section SolverIterations.
Local Open Scope double_scope.

Lemma pf_iteration_answers {T} `{Scalar T} (s : PfCosim.locals T) (g : T)
  (raw v : complex T) :
  PfCosim.iteration (PfCosim.answers g raw v) s =
  ([RequestTime (PfCosim.grantedtime s + PfCosim.period) (Ok g);
    GetValue "gpk_gld_right_fed/sa" (Ok (VComplex raw));
    Execute "app" (PfCosim.voltage s) (cdiv_scalar raw (lit 1000000)) (Ok v);
    Publish "Vc" (VComplex (cmul_scalar v (lit 69000))) (Ok tt)],
   Ret {| PfCosim.grantedtime := g;
          PfCosim.Sa := cdiv_scalar raw (lit 1000000);
          PfCosim.voltage := v |}).
Proof. reflexivity. Qed.

Lemma pf_iteration_ret_inv {T} `{Scalar T} (tk : PfCosim.tick T) s tr s' :
  PfCosim.iteration tk s = (tr, Ret s') ->
  exists g raw v, tk = PfCosim.answers g raw v.
Proof.
  destruct tk as [[g|] [raw|] [v|] [[]|]]; cbn; try discriminate.
  intros _. exists g, raw, v. reflexivity.
Qed.

Lemma twobus_iteration_answers {T} `{Scalar T} (s : TwoBus.locals T) (g : T)
  (ra rb rc va vb vc : complex T) :
  TwoBus.iteration (TwoBus.answers g ra rb rc va vb vc) s =
  ([RequestTime (TwoBus.grantedtime s + TwoBus.period) (Ok g);
    GetValue "gld_hlc_conn/Sa" (Ok (VComplex ra));
    GetValue "gld_hlc_conn/Sb" (Ok (VComplex rb));
    GetValue "gld_hlc_conn/Sc" (Ok (VComplex rc));
    Execute "app_A" (TwoBus.Va s) (cdiv_scalar ra (lit 100000000)) (Ok va);
    Execute "app_B" (TwoBus.Vb s) (cdiv_scalar rb (lit 100000000)) (Ok vb);
    Execute "app_C" (TwoBus.Vc s) (cdiv_scalar rc (lit 100000000)) (Ok vc);
    Publish "Va" (VComplex (cmul_scalar va (lit 2400))) (Ok tt);
    Publish "Vb" (VComplex (cmul_scalar (cmul vb TwoBus.r120) (lit 2400))) (Ok tt);
    Publish "Vc"
      (VComplex (cmul_scalar (cmul (cmul vc TwoBus.r120) TwoBus.r120) (lit 2400)))
      (Ok tt)],
   Ret {| TwoBus.grantedtime := g;
          TwoBus.Sa := cdiv_scalar ra (lit 100000000);
          TwoBus.Sb := cdiv_scalar rb (lit 100000000);
          TwoBus.Sc := cdiv_scalar rc (lit 100000000);
          TwoBus.Va := va;
          TwoBus.Vb := cmul vb TwoBus.r120;
          TwoBus.Vc := cmul (cmul vc TwoBus.r120) TwoBus.r120 |}).
Proof. reflexivity. Qed.

Lemma twobus_iteration_ret_inv {T} `{Scalar T} (tk : TwoBus.tick T) s tr s' :
  TwoBus.iteration tk s = (tr, Ret s') ->
  exists g ra rb rc va vb vc, tk = TwoBus.answers g ra rb rc va vb vc.
Proof.
  destruct tk as [[g|] [ra|] [rb|] [rc|] [va|] [vb|] [vc|] [[]|] [[]|] [[]|]];
    cbn; try discriminate.
  intros _. exists g, ra, rb, rc, va, vb, vc. reflexivity.
Qed.

End SolverIterations.

Section SimpleIterations.
Local Open Scope R_scope.

Lemma simple_iteration_answers (t : Z) (r : R * complex R) :
  SimpleCosim.iteration t (simple_tick r) = (simple_step t r, Ret tt).
Proof.
  destruct r as [g [re im]]. unfold simple_step, scaled, simple_tick.
  assert (Et : (lit (inject_Z t) + lit 1)%D = IZR t + 1)
    by (cbn; unfold Q2R; cbn; lra).
  assert (EA : forall x : R, (x * lit 1.1)%D = 1.1 * x) by (intros; cbn; lit_R; lra).
  assert (EB : forall x : R, (x * lit 1.2)%D = 1.2 * x) by (intros; cbn; lit_R; lra).
  assert (EC : forall x : R, (x * lit 1.3)%D = 1.3 * x) by (intros; cbn; lit_R; lra).
  unfold SimpleCosim.iteration, SimpleCosim.answers.
  cbn [fst snd SimpleCosim.grant SimpleCosim.load_current SimpleCosim.pub_A
       SimpleCosim.pub_B SimpleCosim.pub_C real imag].
  rewrite Et. unfold requestTime, getComplex, publish, call, reply_map.
  cbn [bind app real imag]. rewrite !EA, !EB, !EC. reflexivity.
Qed.

Lemma simple_loop_answers (replies : list (R * complex R)) :
  forall (t : Z) (rest : list (SimpleCosim.tick R)),
    (0 <= t)%Z -> List.length replies = Z.to_nat (10 - t) ->
    SimpleCosim.loop t (map simple_tick replies ++ rest) =
    (simple_steps t replies, Ret tt).
Proof.
  induction replies as [|r replies IH]; intros t rest Ht Hlen;
    rewrite simple_loop_eq.
  - cbn [List.length] in Hlen. destruct (Z.ltb_spec t 10); [lia|]. reflexivity.
  - cbn [List.length] in Hlen. destruct (Z.ltb_spec t 10); [|lia].
    cbn [map app]. rewrite simple_iteration_answers. cbn [bind].
    rewrite IH by lia. reflexivity.
Qed.
End SimpleIterations.

(** Running a loop over [R] on a concrete script. *)
Ltac run_loop_R :=
  repeat first
    [ rewrite while_loop_step_R by (cbn; lit_R; lra)
    | rewrite while_loop_exit_R by (cbn; lit_R; lra)
    | rewrite iteration_answers
    | rewrite pf_iteration_answers
    | rewrite twobus_iteration_answers
    | progress cbn [bind ret app] ].

(* ----------------------------------------------------------------- *)
(** ** The integration step (lc-tank) *)

Section EulerStep.
Import LCTank.
Local Open Scope double_scope.

(** C2.  Explicit forward Euler: for every previous state, peer input,
    step size [dt] and element value, in either arithmetic, a step of the
    capacitor federate takes [prev_state] to
    [prev_state + (-1/C) * peer_input * dt] and a step of the inductor
    federate takes it to [prev_state + (1/L) * peer_input * dt]; the new
    state is what the step records and publishes.  [dt] is the value of the
    program's step-size variable, [period]. *)
Theorem euler_step_formula :
  (forall (T : Type) (S : Scalar T) (c_value l_value dt horizon : T)
          (s : locals T) (g x : T),
      let prev_state := back (series s) in
      let v := prev_state + lit (-1) / c_value * x * dt in
      let i := prev_state + lit 1 / l_value * x * dt in
      advance (capacitor c_value dt horizon) prev_state x dt = v /\
      advance (inductor l_value dt horizon) prev_state x dt = i /\
      (exists tr s',
          iteration (capacitor c_value dt horizon) (answers g x) s = (tr, Ret s') /\
          back (series s') = v /\ published "Vc" tr = [VDouble v]) /\
      (exists tr s',
          iteration (inductor l_value dt horizon) (answers g x) s = (tr, Ret s') /\
          back (series s') = i /\ published "Il" tr = [VDouble i])) /\
  (forall (c_value l_value dt horizon : R) (s : locals R) (g x : R),
      let prev_state := back (series s) in
      (exists tr s',
          iteration (capacitor c_value dt horizon) (answers g x) s = (tr, Ret s') /\
          back (series s') = (prev_state + (-1 / c_value) * x * dt)%R) /\
      (exists tr s',
          iteration (inductor l_value dt horizon) (answers g x) s = (tr, Ret s') /\
          back (series s') = (prev_state + (1 / l_value) * x * dt)%R)).
Proof.
  split; intros.
  - split; [reflexivity|]. split; [reflexivity|].
    split; do 2 eexists; (split; [apply iteration_answers|]);
      cbn [series]; rewrite back_push; split; reflexivity.
  - split; do 2 eexists; (split; [apply iteration_answers|]);
      cbn [series]; rewrite back_push; subst prev_state; cbn; lit_R; lra.
Qed.

(** C8, as the programs have it.  The step size the loop hands to the
    integration is the nominal [period], not the time elapsed.  With a step
    size of 0 the advanced state is the previous state, exactly, for every
    element, previous state and peer input.  A step in which the substrate
    grants no progress (the granted time is the time before) is a valid
    step: the iteration returns normally and the clock stays; the state
    moves by [(numerator / element_value) * peer_input * period], so it is
    unchanged when the peer input read is 0, and when the federate's period
    is 0. *)
Theorem zero_progress_step :
  forall (el : element R) (c_value l_value horizon : R) (s : locals R) (x : R),
    let prev_state := back (series s) in
    advance el prev_state x 0%R = prev_state /\
    (exists s',
        snd (iteration el (answers (grantedtime s) x) s) = Ret s' /\
        grantedtime s' = grantedtime s /\
        back (series s') =
          (prev_state + numerator el / element_value el * x * period el)%R) /\
    (exists s',
        snd (iteration el (answers (grantedtime s) 0%R) s) = Ret s' /\
        back (series s') = prev_state) /\
    (exists s',
        snd (iteration (capacitor c_value 0%R horizon) (answers (grantedtime s) x) s)
          = Ret s' /\
        back (series s') = prev_state) /\
    (exists s',
        snd (iteration (inductor l_value 0%R horizon) (answers (grantedtime s) x) s)
          = Ret s' /\
        back (series s') = prev_state).
Proof.
  intros. subst prev_state. split; [unfold advance, increment; cbn; lra|].
  repeat split; rewrite iteration_answers; cbn [snd]; eexists;
    (split; [reflexivity|]); cbn [series grantedtime]; rewrite ?back_push;
    try split; try reflexivity; cbn; lra.
Qed.

(** C8 as stated fails.  Capacitor.cpp, first step: the substrate grants
    time 0, the time before, and the inductor current read is 1.  No time
    has elapsed and the voltage has moved from 0 to
    [(-1/0.159) * 1 * 100e-6], in exact arithmetic and in binary64. *)
Lemma zero_progress_counterexample :
  (exists tr s',
      iteration Capacitor
        (answers (grantedtime (initial Capacitor)) 1%R) (initial Capacitor)
        = (tr, Ret s') /\
      (grantedtime s' - grantedtime (initial Capacitor) = 0)%R /\
      back (series (initial Capacitor)) = 0%R /\
      back (series s') = (-1 / 0.159 * 1 * 100e-6)%R /\
      back (series s') <> back (series (initial Capacitor))) /\
  (exists tr s',
      iteration (T:=binary64) Capacitor
        (answers (grantedtime (initial Capacitor)) (lit 1)) (initial Capacitor)
        = (tr, Ret s') /\
      PrimFloat.eqb (grantedtime s') (grantedtime (initial Capacitor)) = true /\
      PrimFloat.eqb (back (series s')) (back (series (initial Capacitor))) = false).
Proof.
  split; do 2 eexists; (split; [apply iteration_answers|]);
    cbn [series grantedtime initial]; rewrite ?back_push.
  - cbn. lit_R. repeat split; lra.
  - split; vm_compute; reflexivity.
Qed.

(** C3.  The first step of the LC tank with the constants of the two
    programs.  In exact arithmetic the inductor, reading a capacitor
    voltage of 0, stays at 1, and the capacitor, reading an inductor
    current of 1, moves to [0 + (-1/0.159) * 1 * 100e-6], which is
    -6.29e-4 to three digits.  In binary64 the inductor's state is the
    double 1.0, the capacitor's state is the double the reference
    expression evaluates to, and that double is within 1e-9 of the exact
    value -1/1590. *)
Theorem lc_tank_first_step :
  (forall g : R, exists sL sC,
      snd (iteration Inductor (answers g 0%R) (initial Inductor)) = Ret sL /\
      snd (iteration Capacitor (answers g 1%R) (initial Capacitor)) = Ret sC /\
      back (series sL) = 1%R /\
      back (series sC) = (0 + (-1 / 0.159) * 1 * 100e-6)%R /\
      (-6.295e-4 < back (series sC) < -6.285e-4)%R) /\
  (forall g : binary64, exists sL sC,
      snd (iteration Inductor (answers g (lit 0)) (initial Inductor)) = Ret sL /\
      snd (iteration Capacitor (answers g (lit 1)) (initial Capacitor)) = Ret sC /\
      back (series sL) = lit 1 /\
      back (series sC) = lit 0 + lit (-1) / lit 0.159 * lit 1 * lit 100e-6 /\
      exists q, float2Q (back (series sC)) = Some q /\
                (Qabs (q - (-1 # 1590)) <= 1e-9)%Q).
Proof.
  split; intro g; rewrite !iteration_answers; cbn [snd];
    do 2 eexists; (split; [reflexivity|]); (split; [reflexivity|]);
    cbn [series]; rewrite !back_push.
  - cbn. lit_R. repeat split; lra.
  - split; [vm_compute; reflexivity|]. split; [reflexivity|].
    eexists. split; [vm_compute; reflexivity|].
    vm_compute. discriminate.
Qed.
End EulerStep.

(* ----------------------------------------------------------------- *)
(** ** The trajectory of a reactive element *)

Section Trajectory.
Import LCTank Runs.
Local Open Scope double_scope.

(** C1, as the programs have it.  The loop integrates with the nominal
    [period], whatever times are granted: when it returns, the recorded
    times are the granted ones and the state is the initial state plus the
    sum of [f(input_i) * period] over the inputs read, with
    [f(x) = (numerator / element_value) * x].  That sum is the sum of
    [f(input_i) * (t_i - t_(i-1))] when every grant comes exactly one
    period after the one before. *)
Theorem trajectory_uses_nominal_period :
  forall (el : element R) (script : list (tick R)) (s s' : locals R)
         (tr : list (event R)),
    loop el script s = (tr, Ret s') ->
    let k := (numerator el / element_value el)%R in
    time_sim s' = time_sim s ++ grants tr /\
    back (series s') =
      (back (series s) + Rsum (map (fun x => k * x * period el) (double_reads tr)))%R /\
    (evenly_spaced (period el) (grantedtime s) (grants tr) ->
     back (series s') =
       (back (series s) +
        Rsum (elapsed_increments k (grantedtime s)
                (combine (grants tr) (double_reads tr))))%R).
Proof.
  intros el script s s' tr Hrun k. revert script s tr s' Hrun.
  unfold loop.
  apply (while_loop_returns (total_interval el) (@grantedtime R) (iteration el)
           (fun s tr s' =>
              time_sim s' = time_sim s ++ grants tr /\
              back (series s') =
                (back (series s) +
                 Rsum (map (fun x => k * x * period el) (double_reads tr)))%R /\
              (evenly_spaced (period el) (grantedtime s) (grants tr) ->
               back (series s') =
                 (back (series s) +
                  Rsum (elapsed_increments k (grantedtime s)
                          (combine (grants tr) (double_reads tr))))%R))).
  - intros s _. cbn. rewrite app_nil_r. repeat split; lra.
  - intros s tk tr1 s1 tr2 s2 _ Hit (Ht & Hv & He).
    destruct (iteration_ret_inv _ _ _ Hit) as (g & x & ->).
    rewrite iteration_answers in Hit. injection Hit as <- <-.
    rewrite grants_app, double_reads_app.
    cbn [time_sim series grantedtime] in *. rewrite back_push in *.
    unfold grants at 1 3 5.
    cbn [time_calls map snd app double_reads combine elapsed_increments
         evenly_spaced Rsum fold_right].
    rewrite Ht, <- app_assoc. split; [reflexivity|]. split.
    + rewrite Hv. unfold Rsum. cbn. subst k. lra.
    + intros [Hg Hrest]. rewrite (He Hrest). unfold Rsum.
      cbn. rewrite Hg. subst k. lra.
Qed.

(** The theorem at a capacitor whose horizon is two periods, both steps
    granted as requested. *)
Lemma trajectory_witness :
  exists tr s',
    loop two_periods two_steps (initial two_periods) = (tr, Ret s') /\
    evenly_spaced (period two_periods) (grantedtime (initial two_periods)) (grants tr) /\
    time_sim s' = [0; 100e-6; 200e-6]%R /\
    back (series s') =
      (0 + Rsum [-1 / 0.159 * 1 * 100e-6; -1 / 0.159 * 1 * 100e-6])%R /\
    back (series s') =
      (0 + Rsum (elapsed_increments (-1 / 0.159) 0
                   [(100e-6, 1); (200e-6, 1)]))%R.
Proof.
  do 2 eexists.
  match goal with |- ?A /\ _ => assert (Hrun : A) end.
  { unfold loop, two_steps. run_loop_R. reflexivity. }
  split; [exact Hrun|].
  destruct (trajectory_uses_nominal_period _ _ _ Hrun) as (Ht & Hv & He).
  assert (Hs : evenly_spaced (period two_periods)
                 (grantedtime (initial two_periods))
                 (grants (fst (loop two_periods two_steps (initial two_periods)))))
    by (rewrite Hrun; cbn; lit_R; lra).
  rewrite Hrun in Hs. cbn [fst] in Hs. split; [exact Hs|].
  split; [|split].
  - rewrite Ht. cbn. lit_R. repeat (apply (f_equal2 (@cons R)); [lra|]). reflexivity.
  - rewrite Hv. cbn. lit_R. unfold Rsum. cbn. lra.
  - rewrite (He Hs). cbn. lit_R. unfold Rsum. cbn. lra.
Defined.

(** C1 as stated fails.  Capacitor.cpp, first step, granted 50e-6 (half the
    period requested) with an inductor current of 1: the increment is
    [(-1/0.159) * 1 * 100e-6], not [(-1/0.159) * 1 * (50e-6 - 0)], in exact
    arithmetic and in binary64. *)
Lemma elapsed_time_counterexample :
  (exists tr s',
      iteration Capacitor (answers 50e-6%R 1%R) (initial Capacitor) = (tr, Ret s') /\
      delta s' = (-1 / 0.159 * 1 * 100e-6)%R /\
      delta s' <> (-1 / 0.159 * 1 * (50e-6 - grantedtime (initial Capacitor)))%R /\
      back (series s') <>
        (back (series (initial Capacitor)) +
         -1 / 0.159 * 1 * (50e-6 - grantedtime (initial Capacitor)))%R) /\
  (exists tr s',
      iteration (T:=binary64) Capacitor (answers (lit 50e-6) (lit 1)) (initial Capacitor)
        = (tr, Ret s') /\
      PrimFloat.eqb (delta s')
        (lit (-1) / lit 0.159 * lit 1 * (lit 50e-6 - grantedtime (initial Capacitor)))
        = false).
Proof.
  split; do 2 eexists; (split; [apply iteration_answers|]); cbn [delta series grantedtime].
  - rewrite back_push. cbn. lit_R. repeat split; lra.
  - vm_compute. reflexivity.
Qed.
End Trajectory.

(* ----------------------------------------------------------------- *)
(** ** The simulation clock *)

Section Clock.
Context {Tick Locals : Type}.
Variables total_interval period : R.
Variable grantedtime : Locals -> R.
Variable iteration : Tick -> Locals -> M R Locals.

Hypothesis iteration_clock :
  forall tk s tr s',
    iteration tk s = (tr, Ret s') ->
    time_calls tr = [((grantedtime s + period)%R, grantedtime s')].

Lemma clock_of_loop script s tr s' :
  while_loop total_interval grantedtime iteration script s = (tr, Ret s') ->
  requests_follow period (grantedtime s) (time_calls tr) /\
  grantedtime s' = last (grants tr) (grantedtime s) /\
  (total_interval <= grantedtime s')%R /\
  (within_contract (grantedtime s) (time_calls tr) ->
   nondecreasing (grantedtime s) (grants tr) /\
   ((grantedtime s < total_interval \/ grantedtime s < total_interval + period)%R ->
    (grantedtime s' < total_interval + period)%R)).
Proof.
  revert script s tr s'.
  apply (while_loop_returns total_interval grantedtime iteration
           (fun s tr s' =>
              requests_follow period (grantedtime s) (time_calls tr) /\
              grantedtime s' = last (grants tr) (grantedtime s) /\
              (total_interval <= grantedtime s')%R /\
              (within_contract (grantedtime s) (time_calls tr) ->
               nondecreasing (grantedtime s) (grants tr) /\
               ((grantedtime s < total_interval \/
                 grantedtime s < total_interval + period)%R ->
                (grantedtime s' < total_interval + period)%R)))).
  - intros s Hge. apply Rltb_ge in Hge. cbn. repeat split; auto.
    intros [Hlt|Hlt]; lra.
  - intros s tk tr1 s1 tr2 s2 Hlt Hit (Hreq & Hlast & Hge & Hc).
    apply Rltb_lt in Hlt. apply iteration_clock in Hit.
    unfold grants. rewrite time_calls_app, Hit. cbn [app map snd requests_follow within_contract nondecreasing].
    fold (grants tr2). rewrite last_cons_default.
    split; [auto|]. split; [exact Hlast|]. split; [exact Hge|].
    intros [[Hlo Hhi] Hrest]. destruct (Hc Hrest) as [Hmono Hbound].
    split; [split; assumption|]. intros _. apply Hbound. right. lra.
Qed.
End Clock.

Section ClockOfFederates.
Import Runs.
Local Open Scope R_scope.

Lemma lc_iteration_clock (el : LCTank.element R) tk s tr s' :
  LCTank.iteration el tk s = (tr, Ret s') ->
  time_calls tr = [(LCTank.grantedtime s + LCTank.period el, LCTank.grantedtime s')].
Proof.
  intros Hit. destruct (iteration_ret_inv _ _ _ Hit) as (g & x & ->).
  rewrite iteration_answers in Hit. injection Hit as <- <-. reflexivity.
Qed.

Lemma pf_iteration_clock tk s tr s' :
  PfCosim.iteration (T:=R) tk s = (tr, Ret s') ->
  time_calls tr = [(PfCosim.grantedtime s + PfCosim.period, PfCosim.grantedtime s')].
Proof.
  intros Hit. destruct (pf_iteration_ret_inv _ _ Hit) as (g & raw & v & ->).
  rewrite pf_iteration_answers in Hit. injection Hit as <- <-. reflexivity.
Qed.

Lemma twobus_iteration_clock tk s tr s' :
  TwoBus.iteration (T:=R) tk s = (tr, Ret s') ->
  time_calls tr = [(TwoBus.grantedtime s + TwoBus.period, TwoBus.grantedtime s')].
Proof.
  intros Hit.
  destruct (twobus_iteration_ret_inv _ _ Hit) as (g & ra & rb & rc & va & vb & vc & ->).
  rewrite twobus_iteration_answers in Hit. injection Hit as <- <-. reflexivity.
Qed.

(** C7, as the programs have it.  In the three [while] federates the
    clock [grantedtime] is the last time granted, every request is the clock
    plus the period, and a loop that returns leaves the clock at or past the
    horizon.  When every grant is no earlier than the time before it and no
    later than the time requested, the clock never decreases and the loop
    leaves it less than one period past the horizon:
    [total_interval <= grantedtime < total_interval + period]. *)
Theorem clock_follows_grants :
  (forall (el : LCTank.element R) script s tr s',
      LCTank.loop el script s = (tr, Ret s') ->
      LCTank.grantedtime s < LCTank.total_interval el ->
      LCTank.grantedtime s' = last (grants tr) (LCTank.grantedtime s) /\
      requests_follow (LCTank.period el) (LCTank.grantedtime s) (time_calls tr) /\
      LCTank.total_interval el <= LCTank.grantedtime s' /\
      (within_contract (LCTank.grantedtime s) (time_calls tr) ->
       nondecreasing (LCTank.grantedtime s) (grants tr) /\
       LCTank.grantedtime s' < LCTank.total_interval el + LCTank.period el)) /\
  (forall script tr s',
      PfCosim.loop script PfCosim.initial = (tr, Ret s') ->
      PfCosim.grantedtime s' = last (grants tr) 0 /\
      requests_follow 1 0 (time_calls tr) /\
      10 <= PfCosim.grantedtime s' /\
      (within_contract 0 (time_calls tr) ->
       nondecreasing 0 (grants tr) /\ PfCosim.grantedtime s' < 10 + 1)) /\
  (forall script tr s',
      TwoBus.loop script TwoBus.initial = (tr, Ret s') ->
      TwoBus.grantedtime s' = last (grants tr) 0 /\
      requests_follow 1 0 (time_calls tr) /\
      10 <= TwoBus.grantedtime s' /\
      (within_contract 0 (time_calls tr) ->
       nondecreasing 0 (grants tr) /\ TwoBus.grantedtime s' < 10 + 1)).
Proof.
  split; [|split].
  - intros el script s tr s' Hrun Hlt.
    destruct (@clock_of_loop _ _ (LCTank.total_interval el) (LCTank.period el)
                (@LCTank.grantedtime R) (LCTank.iteration el)
                (lc_iteration_clock el) _ _ _ _ Hrun)
      as (Hreq & Hlast & Hge & Hrest).
    repeat split; auto; destruct (Hrest H) as [Hmono Hbound]; auto.
  - intros script tr s' Hrun.
    destruct (@clock_of_loop _ _ PfCosim.total_interval PfCosim.period
                (@PfCosim.grantedtime R) PfCosim.iteration pf_iteration_clock
                _ _ _ _ Hrun) as (Hreq & Hlast & Hge & Hrest).
    unfold PfCosim.total_interval, PfCosim.period in *.
    cbn [PfCosim.grantedtime PfCosim.initial] in *.
    rewrite ?lit_R_0, ?lit_R_1, ?lit_R_10 in *.
    repeat split; auto; destruct (Hrest H) as [Hmono Hbound]; auto.
    apply Hbound. left. lra.
  - intros script tr s' Hrun.
    destruct (@clock_of_loop _ _ TwoBus.total_interval TwoBus.period
                (@TwoBus.grantedtime R) TwoBus.iteration twobus_iteration_clock
                _ _ _ _ Hrun) as (Hreq & Hlast & Hge & Hrest).
    unfold TwoBus.total_interval, TwoBus.period in *.
    cbn [TwoBus.grantedtime TwoBus.initial] in *.
    rewrite ?lit_R_0, ?lit_R_1, ?lit_R_10 in *.
    repeat split; auto; destruct (Hrest H) as [Hmono Hbound]; auto.
    apply Hbound. left. lra.
Qed.

(** The theorem at runs in which every request is granted as made. *)
Lemma clock_follows_grants_witness :
  (exists tr s',
      LCTank.loop two_periods two_steps (LCTank.initial two_periods) = (tr, Ret s') /\
      within_contract 0 (time_calls tr) /\
      nondecreasing 0 (grants tr) /\
      200e-6 <= LCTank.grantedtime s' < 200e-6 + 100e-6) /\
  (exists tr s',
      PfCosim.loop pf_on_time PfCosim.initial = (tr, Ret s') /\
      within_contract 0 (time_calls tr) /\
      nondecreasing 0 (grants tr) /\
      10 <= PfCosim.grantedtime s' < 10 + 1) /\
  (exists tr s',
      TwoBus.loop twobus_on_time TwoBus.initial = (tr, Ret s') /\
      within_contract 0 (time_calls tr) /\
      nondecreasing 0 (grants tr) /\
      10 <= TwoBus.grantedtime s' < 10 + 1).
Proof.
  destruct clock_follows_grants as (Hlc & Hpf & Htb).
  split; [|split]; do 2 eexists;
    (match goal with |- ?A /\ _ => assert (Hrun : A) end;
     [ unfold LCTank.loop, PfCosim.loop, TwoBus.loop, two_steps, pf_on_time,
         twobus_on_time, pf_tick, twobus_tick; cbn [map]; run_loop_R; reflexivity
     | split; [exact Hrun|] ]).
  - split; [cbn; lit_R; repeat split; lra|].
    apply Hlc in Hrun; [|cbn; lit_R; lra].
    destruct Hrun as (_ & _ & Hge & Hrest).
    match type of Hrest with
    | ?A -> _ => assert (Hc : A) by (cbn; lit_R; repeat split; lra)
    end.
    destruct (Hrest Hc) as [Hmono Hlt].
    cbn [LCTank.grantedtime LCTank.initial] in Hmono. rewrite lit_R_0 in Hmono.
    split; [exact Hmono|]. split; [exact Hge|exact Hlt].
  - split; [cbn; lit_R; repeat split; lra|].
    apply Hpf in Hrun. destruct Hrun as (_ & _ & Hge & Hrest).
    match type of Hrest with
    | ?A -> _ => assert (Hc : A) by (cbn; lit_R; repeat split; lra)
    end.
    destruct (Hrest Hc) as [Hmono Hlt].
    split; [exact Hmono|]. split; [exact Hge|exact Hlt].
  - split; [cbn; lit_R; repeat split; lra|].
    apply Htb in Hrun. destruct Hrun as (_ & _ & Hge & Hrest).
    match type of Hrest with
    | ?A -> _ => assert (Hc : A) by (cbn; lit_R; repeat split; lra)
    end.
    destruct (Hrest Hc) as [Hmono Hlt].
    split; [exact Hmono|]. split; [exact Hge|exact Hlt].
Defined.

(** C7 as stated fails.  pf-cosim, period 1 and horizon 10: the grants
    0.5, 1.5, ..., 10.5 are each within the contract, the loop returns, and
    the clock stands at 10.5, past the horizon. *)
Lemma horizon_overshoot_counterexample :
  exists tr s',
    PfCosim.loop pf_half_period_off PfCosim.initial = (tr, Ret s') /\
    within_contract 0 (time_calls tr) /\
    PfCosim.grantedtime s' = 10.5 /\
    PfCosim.total_interval < PfCosim.grantedtime s'.
Proof.
  do 2 eexists. split.
  - unfold PfCosim.loop, pf_half_period_off, pf_tick. cbn [map]. 
    run_loop_R. reflexivity.
  - cbn. lit_R. repeat split; lra.
Qed.
End ClockOfFederates.

(* ----------------------------------------------------------------- *)
(** ** The solver adapters (pf-cosim, 2bus-13bus) *)

Section SolverAdapter.
Import Runs.
Local Open Scope double_scope.

(** C4.  In every step of pf-cosim the solver is called with the power read
    divided by 1000000 and the voltage it leaves is published multiplied by
    69000; in every step of 2bus-13bus each phase's solver is called with
    that phase's power divided by 100000000 and the voltages are published
    multiplied by 2400 (phases B and C after their rotation, which is stated
    in exact arithmetic; the rest holds in either arithmetic).  For a power
    of 5000000+0j the solver receives 5+0j, and for a solved voltage of
    1.02+0j the value published is 1.02 * 69000, in exact arithmetic and in
    binary64. *)
Theorem solver_adapter_scaling :
  (forall (T : Type) (S : Scalar T) (s : PfCosim.locals T) (g : T) (raw v : complex T),
      let tr := fst (PfCosim.iteration (PfCosim.answers g raw v) s) in
      executed "app" tr = [(cdiv_scalar raw (lit 1000000), Ok v)] /\
      published "Vc" tr = [VComplex (cmul_scalar v (lit 69000))]) /\
  (forall (T : Type) (S : Scalar T) (s : TwoBus.locals T) (g : T)
          (ra rb rc va vb vc : complex T),
      let tr := fst (TwoBus.iteration (TwoBus.answers g ra rb rc va vb vc) s) in
      executed "app_A" tr = [(cdiv_scalar ra (lit 100000000), Ok va)] /\
      executed "app_B" tr = [(cdiv_scalar rb (lit 100000000), Ok vb)] /\
      executed "app_C" tr = [(cdiv_scalar rc (lit 100000000), Ok vc)] /\
      published "Va" tr = [VComplex (cmul_scalar va (lit 2400))]) /\
  (forall (s : TwoBus.locals R) (g : R) (ra rb rc va vb vc : complex R),
      let tr := fst (TwoBus.iteration (TwoBus.answers g ra rb rc va vb vc) s) in
      published "Vb" tr = [VComplex (cmul_scalar (cmul vb TwoBus.r120) (lit 2400))] /\
      published "Vc" tr =
        [VComplex (cmul_scalar (cmul (cmul vc TwoBus.r120) TwoBus.r120) (lit 2400))]) /\
  (forall (s : PfCosim.locals R) (g : R),
      let tr := fst (PfCosim.iteration
                       (PfCosim.answers g (Complex 5000000%R 0%R) (Complex 1.02%R 0%R)) s) in
      executed "app" tr = [(Complex 5%R 0%R, Ok (Complex 1.02%R 0%R))] /\
      published "Vc" tr = [VComplex (Complex (1.02 * 69000)%R 0%R)]) /\
  (forall (s : PfCosim.locals binary64) (g : binary64),
      let tr := fst (PfCosim.iteration
                       (PfCosim.answers g (Complex (lit 5000000) (lit 0))
                                        (Complex (lit 1.02) (lit 0))) s) in
      executed "app" tr = [(Complex (lit 5) (lit 0), Ok (Complex (lit 1.02) (lit 0)))] /\
      published "Vc" tr = [VComplex (Complex (lit 1.02 * lit 69000) (lit 0))]).
Proof.
  split; [|split; [|split; [|split]]].
  - intros. subst tr. rewrite pf_iteration_answers. split; reflexivity.
  - intros. subst tr. rewrite twobus_iteration_answers. repeat split; reflexivity.
  - intros. subst tr. rewrite twobus_iteration_answers. split; reflexivity.
  - intros. subst tr. rewrite pf_iteration_answers. cbn [fst executed published String.eqb Ascii.eqb Bool.eqb].
    unfold cdiv_scalar, cmul_scalar. cbn. lit_R.
    split; repeat f_equal; lra.
  - intros. subst tr. rewrite pf_iteration_answers. cbn [fst executed published String.eqb Ascii.eqb Bool.eqb].
    split; vm_compute; reflexivity.
Qed.

Lemma cmul_assoc_R (z u w : complex R) : cmul (cmul z u) w = cmul z (cmul u w).
Proof. destruct z, u, w. unfold cmul; cbn. f_equal; ring. Qed.

(** C5, as the program has it, in exact arithmetic.  In every step of
    2bus-13bus the voltage published for phase B is the voltage solved for
    phase B times [r120], and the one for phase C is the voltage solved for
    phase C times [r120] twice, which is times [r120 * r120], each then
    multiplied by 2400; the voltage solved for phase A is published as it is,
    times 2400.  [r120] is the constant -0.5 - 0.866025j. *)
Theorem phases_rotate_their_own_solution :
  (forall (s : TwoBus.locals R) (g : R) (ra rb rc va vb vc : complex R),
      let tr := fst (TwoBus.iteration (TwoBus.answers g ra rb rc va vb vc) s) in
      published "Va" tr = [VComplex (cmul_scalar va (lit 2400))] /\
      published "Vb" tr = [VComplex (cmul_scalar (cmul vb TwoBus.r120) (lit 2400))] /\
      published "Vc" tr =
        [VComplex (cmul_scalar (cmul (cmul vc TwoBus.r120) TwoBus.r120) (lit 2400))]) /\
  (forall vc : complex R,
      cmul (cmul vc TwoBus.r120) TwoBus.r120 = cmul vc (cmul TwoBus.r120 TwoBus.r120)) /\
  TwoBus.r120 = Complex (-0.5)%R (-0.866025)%R.
Proof.
  split; [|split].
  - intros. subst tr. rewrite twobus_iteration_answers. repeat split; reflexivity.
  - intros. apply cmul_assoc_R.
  - unfold TwoBus.r120. cbn. lit_R. f_equal; lra.
Qed.

(** C5 as stated fails.  A step in which phase A solves to 1 and phase B to
    0.98: the real part published for phase B is -1176, that of the rotated
    phase-A voltage would be -1200. *)
Lemma phase_a_counterexample :
  exists tr s' va zb,
    TwoBus.iteration twobus_unbalanced TwoBus.initial = (tr, Ret s') /\
    TwoBus.solved_A twobus_unbalanced = Ok va /\
    published "Vb" tr = [VComplex zb] /\
    real zb = (-1176)%R /\
    real (cmul_scalar (cmul va TwoBus.r120) (lit 2400)) = (-1200)%R /\
    zb <> cmul_scalar (cmul va TwoBus.r120) (lit 2400).
Proof.
  do 4 eexists. split; [apply twobus_iteration_answers|].
  split; [reflexivity|].
  split; [reflexivity|].
  assert (Hb : real (cmul_scalar (cmul (Complex 0.98%R 0%R) TwoBus.r120) (lit 2400))
               = (-1176)%R) by (cbn; lit_R; lra).
  assert (Ha : real (cmul_scalar (cmul (Complex 1%R 0%R) TwoBus.r120) (lit 2400))
               = (-1200)%R) by (cbn; lit_R; lra).
  split; [exact Hb|]. split; [exact Ha|].
  intros E. rewrite E in Hb. rewrite Ha in Hb. lra.
Qed.
End SolverAdapter.

(* ----------------------------------------------------------------- *)
(** ** Read after the grant, publish after the read *)

Section Ordering.
Context {T : Type} `{Scalar T}.

Lemma lc_iteration_ordered (el : LCTank.element T) tk s :
  ordered (LCTank.iteration el tk s).
Proof.
  destruct tk as [[g|] [x|] [[]|]]; intros p [-> | ->]; reflexivity.
Qed.

Lemma pf_iteration_ordered (tk : PfCosim.tick T) s :
  ordered (PfCosim.iteration tk s).
Proof.
  destruct tk as [[g|] [raw|] [v|] [[]|]]; intros p [-> | ->]; reflexivity.
Qed.

Lemma twobus_iteration_ordered (tk : TwoBus.tick T) s :
  ordered (TwoBus.iteration tk s).
Proof.
  destruct tk as [[g|] [ra|] [rb|] [rc|] [va|] [vb|] [vc|] [[]|] [[]|] [[]|]];
    intros p [-> | ->]; reflexivity.
Qed.

Lemma simple_iteration_ordered t (tk : SimpleCosim.tick T) :
  ordered (SimpleCosim.iteration t tk).
Proof.
  destruct tk as [[g|] [x|] [[]|] [[]|] [[]|]]; intros p [-> | ->]; reflexivity.
Qed.

Lemma while_loop_ordered {Tick Locals : Type} (total : T)
  (clock : Locals -> T) (iteration : Tick -> Locals -> M T Locals) :
  (forall tk s, ordered (iteration tk s)) ->
  forall script s p, p = Idle \/ p = Published ->
    run_phase p (fst (while_loop total clock iteration script s)) <> None.
Proof.
  intros Hit. induction script as [|tk script IH]; intros s p Hp;
    rewrite while_loop_eq; destruct (dlt (clock s) total); cbn; try discriminate.
  specialize (Hit tk s p Hp).
  destruct (iteration tk s) as [tr1 [s1| |]]; cbn.
  - destruct (while_loop total clock iteration script s1) as [tr2 r] eqn:E.
    cbn. rewrite run_phase_app, Hit.
    specialize (IH s1 Published (or_intror eq_refl)). rewrite E in IH. exact IH.
  - rewrite Hit. discriminate.
  - destruct Hit.
Qed.

Lemma simple_loop_ordered (script : list (SimpleCosim.tick T)) :
  forall t p, p = Idle \/ p = Published ->
    run_phase p (fst (SimpleCosim.loop t script)) <> None.
Proof.
  induction script as [|tk script IH]; intros t p Hp; rewrite simple_loop_eq;
    destruct (t <? 10)%Z; cbn [fst ret run_phase]; try discriminate.
  pose proof (@simple_iteration_ordered t tk p Hp) as Hit.
  destruct (SimpleCosim.iteration t tk) as [tr1 [[]| |]]; cbn [bind fst].
  - destruct (SimpleCosim.loop (t + 1) script) as [tr2 r] eqn:E.
    cbn [fst]. rewrite run_phase_app, Hit.
    specialize (IH (t + 1)%Z Published (or_intror eq_refl)). rewrite E in IH. exact IH.
  - rewrite Hit. discriminate.
  - destruct Hit.
Qed.
End Ordering.

(** The order is a real constraint: a publication before any read, and a
    read before any grant, are refused. *)
Example publish_before_read_refused :
  causal [RequestTime 1%R (Ok 1%R);
          Publish "Vc" (VDouble 0%R) (Ok tt);
          GetValue "Inductor/Il" (Ok (VDouble 1%R))] = false.
Proof. reflexivity. Qed.

Example read_before_grant_refused :
  causal [GetValue "Inductor/Il" (Ok (VDouble 1%R));
          RequestTime 1%R (Ok 1%R)] = false.
Proof. reflexivity. Qed.

(** C6.  In every run of the loop of every federate, in either
    arithmetic and whatever the substrate and the solver answer, each
    iteration makes its calls in causal order: the time request first, the
    reads of the subscriptions after the grant, the publications after the
    reads. *)
Theorem reads_between_grant_and_publish :
  forall (T : Type) (S : Scalar T),
    (forall (el : LCTank.element T) script s,
        causal (fst (LCTank.loop el script s)) = true) /\
    (forall script, causal (fst (SimpleCosim.loop 0 script)) = true) /\
    (forall script s, causal (fst (PfCosim.loop script s)) = true) /\
    (forall script s, causal (fst (TwoBus.loop script s)) = true).
Proof.
  intros T S. repeat split; intros; apply causal_true.
  - apply while_loop_ordered; [apply lc_iteration_ordered | now left].
  - apply simple_loop_ordered. now left.
  - apply while_loop_ordered; [apply pf_iteration_ordered | now left].
  - apply while_loop_ordered; [apply twobus_iteration_ordered | now left].
Qed.

(* ----------------------------------------------------------------- *)
(** ** The exit code *)

Section ExitCode.
Context {T : Type} `{Scalar T}.

Lemma sound_ret {A} (a : A) : sound (T:=T) (ret a).
Proof. reflexivity. Qed.

Lemma sound_call {A} (ev : reply A -> event T) (r : reply A) :
  raised (ev r) = match r with Ok _ => false | Raise => true end ->
  sound (call ev r).
Proof. destruct r; cbn; intros ->; reflexivity. Qed.

Lemma sound_bind {A B} (m : M T A) (k : A -> M T B) :
  sound m -> (forall a, sound (k a)) -> sound (bind m k).
Proof.
  destruct m as [tr [a| |]]; cbn; intros Hm Hk; try exact Hm.
  specialize (Hk a). destruct (k a) as [tr' [b| |]]; cbn in *;
    rewrite fatal_app, Hm, Hk; reflexivity.
Qed.

Lemma sound_while {Tick Locals : Type} (total : T) (clock : Locals -> T)
  (iteration : Tick -> Locals -> M T Locals) :
  (forall tk s, sound (iteration tk s)) ->
  forall script s, sound (while_loop total clock iteration script s).
Proof.
  intros Hit. induction script as [|tk script IH]; intros s;
    rewrite while_loop_eq; destruct (dlt (clock s) total); try reflexivity.
  apply sound_bind; auto.
Qed.

Ltac sound_calls :=
  repeat first
    [ apply sound_ret
    | apply sound_bind; [|intros]
    | apply sound_call; match goal with |- context [match ?r with _ => _ end] =>
        destruct r; reflexivity end ].

Lemma lc_iteration_sound (el : LCTank.element T) tk s : sound (LCTank.iteration el tk s).
Proof. unfold LCTank.iteration, requestTime, getDouble, publish. sound_calls. Qed.

Lemma pf_iteration_sound (tk : PfCosim.tick T) s : sound (PfCosim.iteration tk s).
Proof. unfold PfCosim.iteration, requestTime, getComplex, execute, publish. sound_calls. Qed.

Lemma twobus_iteration_sound (tk : TwoBus.tick T) s : sound (TwoBus.iteration tk s).
Proof. unfold TwoBus.iteration, requestTime, getComplex, execute, publish. sound_calls. Qed.

Lemma simple_iteration_sound t (tk : SimpleCosim.tick T) : sound (SimpleCosim.iteration t tk).
Proof. unfold SimpleCosim.iteration, requestTime, getComplex, publish. sound_calls. Qed.

Lemma simple_loop_sound (script : list (SimpleCosim.tick T)) :
  forall t, sound (SimpleCosim.loop t script).
Proof.
  induction script as [|tk script IH]; intros t; rewrite simple_loop_eq;
    destruct (t <? 10)%Z; try reflexivity.
  apply sound_bind; [apply simple_iteration_sound | intros; apply IH].
Qed.

Lemma lc_main_sound (el : LCTank.element T) sc : sound (LCTank.main el sc).
Proof.
  unfold LCTank.main, LCTank.loop, setup, publish, finalize.
  repeat first [ apply sound_while; intros; apply lc_iteration_sound | progress sound_calls ].
Qed.

Lemma pf_main_sound (sc : PfCosim.script T) : sound (PfCosim.main sc).
Proof.
  unfold PfCosim.main, PfCosim.loop, setup, publish, mathFinalize, finalize.
  repeat first [ apply sound_while; intros; apply pf_iteration_sound | progress sound_calls ].
Qed.

Lemma twobus_main_sound (sc : TwoBus.script T) : sound (TwoBus.main sc).
Proof.
  unfold TwoBus.main, TwoBus.loop, setup, publish, mathFinalize, finalize.
  repeat first [ apply sound_while; intros; apply twobus_iteration_sound | progress sound_calls ].
Qed.

Lemma sound_in_scope {A} (m : M T A) : sound m -> sound (in_scope m).
Proof.
  destruct m as [tr [a| |]]; cbn; intros Hm; rewrite ?fatal_app, ?Hm; reflexivity.
Qed.

Lemma simple_try_sound (sc : SimpleCosim.script T) :
  sound (bind (SimpleCosim.body sc) (fun _ => ret 0%Z)).
Proof.
  apply sound_bind; [|intros; apply sound_ret].
  unfold SimpleCosim.body, create.
  apply sound_bind; [apply sound_call; destruct (SimpleCosim.make sc); reflexivity|intros].
  apply sound_in_scope. unfold SimpleCosim.with_fed, setup, finalize.
  repeat first [ apply simple_loop_sound | progress sound_calls ].
Qed.

Lemma returns_only_ret {A} (c : A) : returns_only (T:=T) c (ret c).
Proof. intros a [= <-]. reflexivity. Qed.

Lemma returns_only_bind {A B} (c : B) (m : M T A) (k : A -> M T B) :
  (forall a, returns_only c (k a)) -> returns_only c (bind m k).
Proof.
  intros Hk b. destruct m as [tr [a| |]]; cbn; try discriminate.
  specialize (Hk a b). destruct (k a) as [tr' r]. exact Hk.
Qed.

Lemma lc_main_returns_0 (el : LCTank.element T) sc : returns_only 0%Z (LCTank.main el sc).
Proof.
  unfold LCTank.main.
  repeat (apply returns_only_bind; intros). apply returns_only_ret.
Qed.

Lemma pf_main_returns_0 (sc : PfCosim.script T) : returns_only 0%Z (PfCosim.main sc).
Proof.
  unfold PfCosim.main.
  repeat (apply returns_only_bind; intros). apply returns_only_ret.
Qed.

Lemma twobus_main_returns_0 (sc : TwoBus.script T) : returns_only 0%Z (TwoBus.main sc).
Proof.
  unfold TwoBus.main.
  repeat (apply returns_only_bind; intros). apply returns_only_ret.
Qed.

Lemma simple_try_returns_0 (sc : SimpleCosim.script T) :
  returns_only 0%Z (bind (SimpleCosim.body sc) (fun _ => ret 0%Z)).
Proof. apply returns_only_bind; intros. apply returns_only_ret. Qed.

(** A [main] without a handler: it returns 0 or the exception leaves it. *)
Lemma uncaught_exit (m : M T Z) :
  sound m -> returns_only 0%Z m ->
  (process m = Exited 0 <-> fatal (fst m) = false /\ process m <> Running) /\
  (fatal (fst m) = true -> process m = Terminated).
Proof.
  destruct m as [tr [c| |]]; unfold sound, returns_only, process, fatal; cbn;
    intros Hs Hr.
  - rewrite (Hr c eq_refl). intuition congruence.
  - intuition congruence.
  - intuition congruence.
Qed.

(** A [main] whose handler returns -1. *)
Lemma caught_exit (m : M T Z) :
  sound m -> returns_only 0%Z m ->
  let m' := try_catch m (ret (-1)%Z) in
  (process m' = Exited 0 <-> fatal (fst m') = false /\ process m' <> Running) /\
  (fatal (fst m') = true -> process m' = Exited (-1)).
Proof.
  destruct m as [tr [c| |]]; unfold sound, returns_only, process, fatal; cbn;
    intros Hs Hr; rewrite ?app_nil_r.
  - rewrite (Hr c eq_refl). intuition congruence.
  - intuition congruence.
  - intuition congruence.
Qed.

Lemma while_loop_guard {Tick Locals : Type} (total : T) (clock : Locals -> T)
  (iteration : Tick -> Locals -> M T Locals) script s tr s' :
  while_loop total clock iteration script s = (tr, Ret s') ->
  dlt (clock s') total = false.
Proof.
  revert script s tr s'.
  apply (while_loop_returns total clock iteration
           (fun _ _ s' => dlt (clock s') total = false)); auto.
Qed.

(** [main] of Capacitor.cpp and Inductor.cpp returns 0 exactly when every
    call before the loop succeeded, the loop came to its guard and found it
    false, and [finalize] succeeded. *)
Lemma lc_main_runs_to_its_end (el : LCTank.element T) (sc : LCTank.script T) :
  process (LCTank.main el sc) = Exited 0 <->
  LCTank.boot sc = Ok tt /\ LCTank.first_pub sc = Ok tt /\ LCTank.fin sc = Ok tt /\
  exists trl s',
    LCTank.loop el (LCTank.ticks sc) (LCTank.initial el) = (trl, Ret s') /\
    dlt (LCTank.grantedtime s') (LCTank.total_interval el) = false /\
    fst (LCTank.main el sc) =
      Setup (Ok tt)
      :: Publish (LCTank.own_key el)
                 (VDouble (back (LCTank.series (LCTank.initial el)))) (Ok tt)
      :: trl ++ [Finalize (Ok tt)].
Proof.
  unfold LCTank.main, setup, publish, finalize, call, process.
  destruct sc as [b fp tks f]. cbn [LCTank.boot LCTank.first_pub LCTank.ticks LCTank.fin].
  destruct (LCTank.loop el tks (LCTank.initial el)) as [trl r] eqn:E.
  destruct b as [[]|], fp as [[]|], r as [s'| |], f as [[]|]; cbn;
    (split;
     [ intros Hp; try discriminate Hp
     | intros (Hb & Hfp & Hf & trl' & s'' & Hl & _); try discriminate; reflexivity ]).
  repeat split. exists trl, s'. split; [reflexivity|]. split; [|reflexivity].
  exact (while_loop_guard _ _ _ _ _ E).
Qed.

Lemma pf_main_runs_to_its_end (sc : PfCosim.script T) :
  process (PfCosim.main sc) = Exited 0 <->
  PfCosim.boot sc = Ok tt /\ PfCosim.first_pub sc = Ok tt /\
  PfCosim.math_fin sc = Ok tt /\ PfCosim.fin sc = Ok tt /\
  exists trl s',
    PfCosim.loop (PfCosim.ticks sc) PfCosim.initial = (trl, Ret s') /\
    dlt (PfCosim.grantedtime s') PfCosim.total_interval = false /\
    fst (PfCosim.main sc) =
      Setup (Ok tt)
      :: Publish "Vc" (VComplex (cmul_scalar (PfCosim.voltage PfCosim.initial) (lit 69000)))
                 (Ok tt)
      :: trl ++ [MathFinalize (Ok tt); Finalize (Ok tt)].
Proof.
  unfold PfCosim.main, setup, publish, mathFinalize, finalize, call, process.
  destruct sc as [b fp tks mf f].
  cbn [PfCosim.boot PfCosim.first_pub PfCosim.ticks PfCosim.math_fin PfCosim.fin].
  destruct (PfCosim.loop tks PfCosim.initial) as [trl r] eqn:E.
  destruct b as [[]|], fp as [[]|], r as [s'| |], mf as [[]|], f as [[]|]; cbn;
    (split;
     [ intros Hp; try discriminate Hp
     | intros (Hb & Hfp & Hmf & Hf & trl' & s'' & Hl & _); try discriminate; reflexivity ]).
  repeat split. exists trl, s'. split; [reflexivity|]. split; [|reflexivity].
  exact (while_loop_guard _ _ _ _ _ E).
Qed.

Lemma twobus_main_runs_to_its_end (sc : TwoBus.script T) :
  process (TwoBus.main sc) = Exited 0 <->
  TwoBus.boot sc = Ok tt /\
  TwoBus.first_pub_a sc = Ok tt /\ TwoBus.first_pub_b sc = Ok tt /\
  TwoBus.first_pub_c sc = Ok tt /\
  TwoBus.math_fin sc = Ok tt /\ TwoBus.fin sc = Ok tt /\
  exists trl s',
    TwoBus.loop (TwoBus.ticks sc) TwoBus.initial = (trl, Ret s') /\
    dlt (TwoBus.grantedtime s') TwoBus.total_interval = false /\
    fst (TwoBus.main sc) =
      Setup (Ok tt)
      :: Publish "Va" (VComplex (cmul_scalar (TwoBus.Va TwoBus.initial) (lit 2401.78)))
                 (Ok tt)
      :: Publish "Vb" (VComplex (cmul_scalar (TwoBus.Vb TwoBus.initial) (lit 2401.78)))
                 (Ok tt)
      :: Publish "Vc" (VComplex (cmul_scalar (TwoBus.Vc TwoBus.initial) (lit 2401.78)))
                 (Ok tt)
      :: trl ++ [MathFinalize (Ok tt); Finalize (Ok tt)].
Proof.
  unfold TwoBus.main, setup, publish, mathFinalize, finalize, call, process.
  destruct sc as [b fa fb fc tks mf f].
  cbn [TwoBus.boot TwoBus.first_pub_a TwoBus.first_pub_b TwoBus.first_pub_c
       TwoBus.ticks TwoBus.math_fin TwoBus.fin].
  destruct (TwoBus.loop tks TwoBus.initial) as [trl r] eqn:E.
  destruct b as [[]|], fa as [[]|], fb as [[]|], fc as [[]|], r as [s'| |],
           mf as [[]|], f as [[]|]; cbn;
    (split;
     [ intros Hp; try discriminate Hp
     | intros (Hb & Hfa & Hfb & Hfc & Hmf & Hf & trl' & s'' & Hl & _);
       try discriminate; reflexivity ]).
  repeat split. exists trl, s'. split; [reflexivity|]. split; [|reflexivity].
  exact (while_loop_guard _ _ _ _ _ E).
Qed.

(** gridpack_federate.cpp returns 0 exactly when [fed] was created, every
    call of the [try] block succeeded and the loop made its ten iterations;
    [fed] is then destroyed after [finalize], at the end of the block. *)
Lemma simple_main_runs_to_its_end (sc : SimpleCosim.script T) :
  process (SimpleCosim.main sc) = Exited 0 <->
  SimpleCosim.make sc = Ok tt /\ SimpleCosim.boot sc = Ok tt /\
  SimpleCosim.fin sc = Ok tt /\
  exists trl,
    SimpleCosim.loop 0 (SimpleCosim.ticks sc) = (trl, Ret tt) /\
    fst (SimpleCosim.main sc) =
      Create (Ok tt) :: Setup (Ok tt) :: trl ++ [Finalize (Ok tt); Destroy].
Proof.
  unfold SimpleCosim.main, SimpleCosim.body, SimpleCosim.with_fed,
    create, setup, finalize, call, process.
  destruct sc as [mk b tks f].
  cbn [SimpleCosim.make SimpleCosim.boot SimpleCosim.ticks SimpleCosim.fin].
  destruct (SimpleCosim.loop 0 tks) as [trl r] eqn:E.
  destruct mk as [[]|], b as [[]|], r as [[]| |], f as [[]|]; cbn;
    (split;
     [ intros Hp; try discriminate Hp
     | intros (Hmk & Hb & Hf & trl' & Hl & _); try discriminate; reflexivity ]).
  repeat split. exists trl. split; [reflexivity|].
  rewrite app_nil_r, <- app_assoc. reflexivity.
Qed.

End ExitCode.

Section ValueBorneFailures.
Import Runs.

(** C9 as stated fails: three runs in binary64 that go wrong without an
    exception and exit with 0.  In the first the solver of gpk-left-fed.cpp
    (pf-cosim) leaves no number in [voltage] in any of the ten steps, and the
    program publishes what it was left with ten times over.  In the second
    the first grant is a time far past the horizon, and the program leaves
    its loop after one step of ten.  In the third the same happens to
    Capacitor.cpp, which ends after one step having published two values. *)
Lemma value_borne_failure_counterexample :
  (let m := PfCosim.main pf_unsolved in
   process m = Exited 0 /\
   fatal (fst m) = false /\
   List.length (executed "app" (fst m)) = 10%nat /\
   forallb not_a_number (tl (published "Vc" (fst m))) = true) /\
  (let m := PfCosim.main pf_cut_short in
   process m = Exited 0 /\
   fatal (fst m) = false /\
   grants (fst m) = [far_future] /\
   List.length (executed "app" (fst m)) = 1%nat) /\
  (let m := LCTank.main LCTank.Capacitor capacitor_cut_short in
   process m = Exited 0 /\
   fatal (fst m) = false /\
   grants (fst m) = [far_future] /\
   List.length (published "Vc" (fst m)) = 2%nat) /\
  PrimFloat.ltb (lit 10) far_future = true.
Proof. repeat split; vm_compute; reflexivity. Qed.
End ValueBorneFailures.

(** C9.  For every federate, in either arithmetic and whatever the
    substrate and the solver answer, the process exits with code 0 exactly
    when [main] ran to its end: every call before the loop succeeded, the
    loop came to its guard and found it false (ten iterations, for
    gridpack_federate.cpp), and [gridpack::math::Finalize] (where it is
    called) and [finalize] succeeded; the trace is then those calls and
    nothing else.  Equally, it exits with 0 exactly when no call threw and
    no call blocked for ever.  When a call throws, gridpack_federate.cpp
    returns -1 from its handler; the other four federates have no handler,
    the exception leaves [main] and the process is terminated.  What an
    answer is worth is looked at nowhere: only an exception makes the exit
    code differ from 0. *)
Theorem exit_code_zero_iff_main_runs_to_its_end :
  forall (T : Type) (S : Scalar T),
    (forall sc : SimpleCosim.script T,
        let m := SimpleCosim.main sc in
        (process m = Exited 0 <->
           SimpleCosim.make sc = Ok tt /\ SimpleCosim.boot sc = Ok tt /\
           SimpleCosim.fin sc = Ok tt /\
           exists trl,
             SimpleCosim.loop 0 (SimpleCosim.ticks sc) = (trl, Ret tt) /\
             fst m = Create (Ok tt) :: Setup (Ok tt)
                       :: trl ++ [Finalize (Ok tt); Destroy]) /\
        (process m = Exited 0 <-> fatal (fst m) = false /\ process m <> Running) /\
        (fatal (fst m) = true -> process m = Exited (-1))) /\
    (forall (el : LCTank.element T) (sc : LCTank.script T),
        let m := LCTank.main el sc in
        (process m = Exited 0 <->
           LCTank.boot sc = Ok tt /\ LCTank.first_pub sc = Ok tt /\
           LCTank.fin sc = Ok tt /\
           exists trl s',
             LCTank.loop el (LCTank.ticks sc) (LCTank.initial el) = (trl, Ret s') /\
             dlt (LCTank.grantedtime s') (LCTank.total_interval el) = false /\
             fst m =
               Setup (Ok tt)
               :: Publish (LCTank.own_key el)
                          (VDouble (back (LCTank.series (LCTank.initial el)))) (Ok tt)
               :: trl ++ [Finalize (Ok tt)]) /\
        (process m = Exited 0 <-> fatal (fst m) = false /\ process m <> Running) /\
        (fatal (fst m) = true -> process m = Terminated)) /\
    (forall sc : PfCosim.script T,
        let m := PfCosim.main sc in
        (process m = Exited 0 <->
           PfCosim.boot sc = Ok tt /\ PfCosim.first_pub sc = Ok tt /\
           PfCosim.math_fin sc = Ok tt /\ PfCosim.fin sc = Ok tt /\
           exists trl s',
             PfCosim.loop (PfCosim.ticks sc) PfCosim.initial = (trl, Ret s') /\
             dlt (PfCosim.grantedtime s') PfCosim.total_interval = false /\
             fst m =
               Setup (Ok tt)
               :: Publish "Vc"
                    (VComplex (cmul_scalar (PfCosim.voltage PfCosim.initial) (lit 69000)))
                    (Ok tt)
               :: trl ++ [MathFinalize (Ok tt); Finalize (Ok tt)]) /\
        (process m = Exited 0 <-> fatal (fst m) = false /\ process m <> Running) /\
        (fatal (fst m) = true -> process m = Terminated)) /\
    (forall sc : TwoBus.script T,
        let m := TwoBus.main sc in
        (process m = Exited 0 <->
           TwoBus.boot sc = Ok tt /\
           TwoBus.first_pub_a sc = Ok tt /\ TwoBus.first_pub_b sc = Ok tt /\
           TwoBus.first_pub_c sc = Ok tt /\
           TwoBus.math_fin sc = Ok tt /\ TwoBus.fin sc = Ok tt /\
           exists trl s',
             TwoBus.loop (TwoBus.ticks sc) TwoBus.initial = (trl, Ret s') /\
             dlt (TwoBus.grantedtime s') TwoBus.total_interval = false /\
             fst m =
               Setup (Ok tt)
               :: Publish "Va"
                    (VComplex (cmul_scalar (TwoBus.Va TwoBus.initial) (lit 2401.78)))
                    (Ok tt)
               :: Publish "Vb"
                    (VComplex (cmul_scalar (TwoBus.Vb TwoBus.initial) (lit 2401.78)))
                    (Ok tt)
               :: Publish "Vc"
                    (VComplex (cmul_scalar (TwoBus.Vc TwoBus.initial) (lit 2401.78)))
                    (Ok tt)
               :: trl ++ [MathFinalize (Ok tt); Finalize (Ok tt)]) /\
        (process m = Exited 0 <-> fatal (fst m) = false /\ process m <> Running) /\
        (fatal (fst m) = true -> process m = Terminated)).
Proof.
  intros T S. split; [|split; [|split]]; intros; subst m.
  - split; [apply simple_main_runs_to_its_end|].
    apply caught_exit; [apply simple_try_sound | apply simple_try_returns_0].
  - split; [apply lc_main_runs_to_its_end|].
    apply uncaught_exit; [apply lc_main_sound | apply lc_main_returns_0].
  - split; [apply pf_main_runs_to_its_end|].
    apply uncaught_exit; [apply pf_main_sound | apply pf_main_returns_0].
  - split; [apply twobus_main_runs_to_its_end|].
    apply uncaught_exit; [apply twobus_main_sound | apply twobus_main_returns_0].
Qed.

(* ----------------------------------------------------------------- *)
(** ** simple-cosim *)

Section SimpleCosimLoop.
Import Runs.
Local Open Scope R_scope.

(** C10.  Given ten iterations' worth of answers, the loop of
    gridpack_federate.cpp makes exactly ten iterations and returns: iteration
    [t] requests time [t + 1], so the requests are 1, 2, ..., 10 whatever
    times are granted, and it publishes the load current read scaled
    component by component by 1.1, 1.2 and 1.3. *)
Theorem simple_cosim_ten_scaled_steps :
  forall (replies : list (R * complex R)) (rest : list (SimpleCosim.tick R)),
    List.length replies = 10%nat ->
    SimpleCosim.loop 0 (map simple_tick replies ++ rest) =
      (simple_steps 0 replies, Ret tt) /\
    requests (simple_steps 0 replies) = [1; 2; 3; 4; 5; 6; 7; 8; 9; 10] /\
    grants (simple_steps 0 replies) = map fst replies.
Proof.
  intros replies rest Hlen. split; [apply simple_loop_answers; [lia|exact Hlen]|].
  do 10 (destruct replies as [|[? ?] replies]; [discriminate|]).
  destruct replies; [|discriminate].
  split; [|reflexivity].
  unfold requests. cbn. repeat (apply (f_equal2 (@cons R)); [lra|]). reflexivity.
Qed.

(** The theorem at a run in which time 0 is granted ten times over. *)
Lemma simple_cosim_witness :
  SimpleCosim.loop 0 (map simple_tick simple_stalled) =
    (simple_steps 0 simple_stalled, Ret tt) /\
  requests (simple_steps 0 simple_stalled) = [1; 2; 3; 4; 5; 6; 7; 8; 9; 10] /\
  grants (simple_steps 0 simple_stalled) = [0; 0; 0; 0; 0; 0; 0; 0; 0; 0].
Proof.
  pose proof (simple_cosim_ten_scaled_steps simple_stalled [] eq_refl) as Hw.
  rewrite app_nil_r in Hw. exact Hw.
Defined.
End SimpleCosimLoop.

(* ================================================================= *)
(** * Further properties of the programs *)

(* ----------------------------------------------------------------- *)
(** ** Exceptions and [finalize] *)

Section TraceInduction.
Context {T : Type} `{Scalar T} {Tick Locals : Type}.
Variable total_interval : T.
Variable grantedtime : Locals -> T.
Variable iteration : Tick -> Locals -> M T Locals.

(** Induction over the iterations of a loop, however it ends. *)
Lemma while_loop_trace (P : Locals -> list (event T) -> Prop) :
  (forall s, P s []) ->
  (forall tk s,
      match iteration tk s with
      | (tr1, Ret s1) => forall tr2, P s1 tr2 -> P s (tr1 ++ tr2)
      | (tr1, _) => P s tr1
      end) ->
  forall script s, P s (fst (while_loop total_interval grantedtime iteration script s)).
Proof.
  intros Hnil Hstep. induction script as [|tk script IH]; intros s;
    rewrite while_loop_eq; destruct (dlt (grantedtime s) total_interval);
    cbn [fst ret]; auto.
  specialize (Hstep tk s). destruct (iteration tk s) as [tr1 [s1| |]]; cbn [bind fst]; auto.
  specialize (IH s1).
  destruct (while_loop total_interval grantedtime iteration script s1) as [tr2 r].
  cbn [fst] in *. auto.
Qed.
End TraceInduction.

Section Finalize.
Context {T : Type} `{Scalar T}.

Lemma finalize_calls_app (tr1 tr2 : list (event T)) :
  finalize_calls (tr1 ++ tr2) = finalize_calls tr1 ++ finalize_calls tr2.
Proof.
  induction tr1 as [|e tr1 IH]; [reflexivity|].
  destruct e; cbn; rewrite ?IH; reflexivity.
Qed.

Lemma keeps_open_ret {A} (a : A) : keeps_open (T:=T) (ret a).
Proof. reflexivity. Qed.

Lemma keeps_open_call {A} (ev : reply A -> event T) (r : reply A) :
  finalize_calls [ev r] = [] -> keeps_open (call ev r).
Proof. intros Hq. exact Hq. Qed.

Lemma keeps_open_bind {A B} (m : M T A) (k : A -> M T B) :
  keeps_open m -> (forall a, keeps_open (k a)) -> keeps_open (bind m k).
Proof.
  unfold keeps_open. destruct m as [tr [a| |]]; cbn [bind fst]; intros Hm Hk; auto.
  specialize (Hk a). destruct (k a) as [tr' r]. cbn [fst] in *.
  now rewrite finalize_calls_app, Hm, Hk.
Qed.

Lemma keeps_open_while {Tick Locals : Type} (total : T) (clock : Locals -> T)
  (iteration : Tick -> Locals -> M T Locals) :
  (forall tk s, keeps_open (iteration tk s)) ->
  forall script s, keeps_open (while_loop total clock iteration script s).
Proof.
  intros Hit. induction script as [|tk script IH]; intros s;
    rewrite while_loop_eq; destruct (dlt (clock s) total); try reflexivity.
  apply keeps_open_bind; auto.
Qed.

Lemma closes_bind {A B} (zero : B) (m : M T A) (k : A -> M T B) :
  keeps_open m -> (forall a, closes zero (k a)) -> closes zero (bind m k).
Proof.
  unfold keeps_open. destruct m as [tr [a| |]]; cbn [bind fst closes]; intros Hm Hk; auto.
  specialize (Hk a). destruct (k a) as [tr' [b| |]]; cbn [closes] in *;
    rewrite finalize_calls_app, Hm; exact Hk.
Qed.

Lemma closes_finalize (r : reply unit) :
  closes (T:=T) 0%Z (bind (finalize r) (fun _ => ret 0%Z)).
Proof. destruct r as [[]|]; cbn; auto. Qed.

Lemma destroys_app (tr1 tr2 : list (event T)) :
  destroys (tr1 ++ tr2) = (destroys tr1 + destroys tr2)%nat.
Proof.
  induction tr1 as [|e tr1 IH]; [reflexivity|].
  destruct e; cbn; rewrite ?IH; reflexivity.
Qed.

Lemma keeps_alive_ret {A} (a : A) : keeps_alive (T:=T) (ret a).
Proof. reflexivity. Qed.

Lemma keeps_alive_call {A} (ev : reply A -> event T) (r : reply A) :
  destroys [ev r] = O -> keeps_alive (call ev r).
Proof. intros Hq. exact Hq. Qed.

Lemma keeps_alive_bind {A B} (m : M T A) (k : A -> M T B) :
  keeps_alive m -> (forall a, keeps_alive (k a)) -> keeps_alive (bind m k).
Proof.
  unfold keeps_alive. destruct m as [tr [a| |]]; cbn [bind fst]; intros Hm Hk; auto.
  specialize (Hk a). destruct (k a) as [tr' r]. cbn [fst] in *.
  now rewrite destroys_app, Hm, Hk.
Qed.
End Finalize.

Ltac keeps_open_calls :=
  repeat first
    [ apply keeps_open_ret
    | apply keeps_open_bind; [|intros]
    | apply keeps_open_call; reflexivity ].

Ltac keeps_alive_calls :=
  repeat first
    [ apply keeps_alive_ret
    | apply keeps_alive_bind; [|intros]
    | apply keeps_alive_call; reflexivity ].

Section FinalizeFederates.
Context {T : Type} `{Scalar T}.

Lemma lc_iteration_keeps_open (el : LCTank.element T) tk s :
  keeps_open (LCTank.iteration el tk s).
Proof. unfold LCTank.iteration, requestTime, getDouble, publish. keeps_open_calls. Qed.

Lemma pf_iteration_keeps_open (tk : PfCosim.tick T) s :
  keeps_open (PfCosim.iteration tk s).
Proof.
  unfold PfCosim.iteration, requestTime, getComplex, execute, publish.
  keeps_open_calls.
Qed.

Lemma twobus_iteration_keeps_open (tk : TwoBus.tick T) s :
  keeps_open (TwoBus.iteration tk s).
Proof.
  unfold TwoBus.iteration, requestTime, getComplex, execute, publish.
  keeps_open_calls.
Qed.

Lemma simple_loop_keeps_open (script : list (SimpleCosim.tick T)) :
  forall t, keeps_open (SimpleCosim.loop t script).
Proof.
  induction script as [|tk script IH]; intros t; rewrite simple_loop_eq;
    destruct (t <? 10)%Z; try reflexivity.
  apply keeps_open_bind; [|intros; apply IH].
  unfold SimpleCosim.iteration, requestTime, getComplex, publish. keeps_open_calls.
Qed.

Lemma lc_main_closes (el : LCTank.element T) sc : closes 0%Z (LCTank.main el sc).
Proof.
  unfold LCTank.main.
  apply closes_bind; [unfold setup; keeps_open_calls|intros].
  apply closes_bind; [unfold publish; keeps_open_calls|intros].
  apply closes_bind; [apply keeps_open_while; apply lc_iteration_keeps_open|intros].
  apply closes_finalize.
Qed.

Lemma pf_main_closes (sc : PfCosim.script T) : closes 0%Z (PfCosim.main sc).
Proof.
  unfold PfCosim.main.
  apply closes_bind; [unfold setup; keeps_open_calls|intros].
  apply closes_bind; [unfold publish; keeps_open_calls|intros].
  apply closes_bind; [apply keeps_open_while; apply pf_iteration_keeps_open|intros].
  apply closes_bind; [unfold mathFinalize; keeps_open_calls|intros].
  apply closes_finalize.
Qed.

Lemma twobus_main_closes (sc : TwoBus.script T) : closes 0%Z (TwoBus.main sc).
Proof.
  unfold TwoBus.main.
  apply closes_bind; [unfold setup; keeps_open_calls|intros].
  do 3 (apply closes_bind; [unfold publish; keeps_open_calls|intros]).
  apply closes_bind; [apply keeps_open_while; apply twobus_iteration_keeps_open|intros].
  apply closes_bind; [unfold mathFinalize; keeps_open_calls|intros].
  apply closes_finalize.
Qed.

Lemma simple_loop_keeps_alive (script : list (SimpleCosim.tick T)) :
  forall t, keeps_alive (SimpleCosim.loop t script).
Proof.
  induction script as [|tk script IH]; intros t; rewrite simple_loop_eq;
    destruct (t <? 10)%Z; try reflexivity.
  apply keeps_alive_bind; [|intros; apply IH].
  unfold SimpleCosim.iteration, requestTime, getComplex, publish. keeps_alive_calls.
Qed.

(** What [closes] means for a [main] without a handler. *)
Lemma closes_exit (m : M T Z) :
  closes 0%Z m ->
  (process m = Exited 0 /\ finalize_calls (fst m) = [Ok tt]) \/
  (process m <> Exited 0 /\
   (finalize_calls (fst m) = [] \/ finalize_calls (fst m) = [Raise])).
Proof.
  destruct m as [tr [c| |]]; unfold process; cbn [closes fst snd]; intros Hc.
  - destruct Hc as [Hc ->]. left. split; [reflexivity|exact Hc].
  - right. split; [discriminate|exact Hc].
  - right. split; [discriminate|left; exact Hc].
Qed.

(** The paths through gridpack_federate.cpp, whose federate object lives in
    the [try] block. *)
Lemma simple_main_paths (sc : SimpleCosim.script T) :
  let m := SimpleCosim.main sc in
  (process m = Exited 0 /\ finalize_calls (fst m) = [Ok tt] /\
   exists pre, fst m = pre ++ [Finalize (Ok tt); Destroy] /\ destroys pre = O) \/
  (process m = Exited (-1) /\
   (finalize_calls (fst m) = [] \/ finalize_calls (fst m) = [Raise]) /\
   (fst m = [Create Raise] \/
    exists pre, fst m = Create (Ok tt) :: pre ++ [Destroy] /\
                destroys pre = O /\ fatal pre = true)) \/
  (process m = Running /\ finalize_calls (fst m) = [] /\ destroys (fst m) = O).
Proof.
  unfold SimpleCosim.main, SimpleCosim.body, SimpleCosim.with_fed,
    create, setup, finalize, call, process.
  destruct sc as [mk b tks f].
  cbn [SimpleCosim.make SimpleCosim.boot SimpleCosim.ticks SimpleCosim.fin].
  pose proof (simple_loop_keeps_open tks 0) as Hk.
  pose proof (simple_loop_keeps_alive tks 0) as Ha.
  pose proof (simple_loop_sound tks 0) as Hs.
  unfold keeps_open, keeps_alive, sound in *.
  destruct (SimpleCosim.loop 0 tks) as [trl r]. cbn [fst] in *.
  destruct mk as [[]|]; [|right; left; cbn; auto].
  destruct b as [[]|].
  2:{ right; left; cbn. split; [reflexivity|]. split; [auto|]. right.
      exists [Setup Raise]. auto. }
  destruct r as [[]| |].
  - destruct f as [[]|]; cbn; rewrite ?app_nil_r.
    + left. split; [reflexivity|].
      rewrite !finalize_calls_app, Hk. split; [reflexivity|].
      exists (Create (Ok tt) :: Setup (Ok tt) :: trl).
      rewrite <- app_assoc. cbn. auto.
    + right; left. split; [reflexivity|].
      rewrite !finalize_calls_app, Hk. split; [auto|]. right.
      exists (Setup (Ok tt) :: trl ++ [Finalize Raise]). split; [reflexivity|].
      cbn. unfold fatal in *. rewrite destroys_app, existsb_app, Ha. cbn.
      split; [reflexivity|apply orb_true_r].
  - right; left. cbn. rewrite ?app_nil_r. split; [reflexivity|].
    rewrite finalize_calls_app, Hk. split; [auto|]. right.
    exists (Setup (Ok tt) :: trl). cbn. unfold fatal in *. auto.
  - right; right. cbn. auto.
Qed.
End FinalizeFederates.

(** X2.  Every federate calls [finalize] at most once, after its loop.
    Capacitor.cpp, Inductor.cpp and the two gpk-left-fed.cpp either exit with
    0, and that one call was made and succeeded, or do not exit with 0, and
    [finalize] has not been called or is the call that threw: [main] has no
    handler and no other path on which it calls [finalize].
    gridpack_federate.cpp declares its federate inside the [try] block.  When
    it exits with 0, [finalize] succeeded and the destructor of the federate
    ran once, after it, as the last thing.  When it exits with -1, either the
    constructor threw and there is nothing to destroy, or a later call threw,
    [finalize] was not called (or is that call) and the federate was released
    by its destructor alone, once, after the call that threw.  When a call
    never comes back nothing is finalized or destroyed. *)
Theorem finalize_and_destructor_on_every_path :
  forall (T : Type) (S : Scalar T),
    (forall (el : LCTank.element T) sc,
        let m := LCTank.main el sc in
        (process m = Exited 0 /\ finalize_calls (fst m) = [Ok tt]) \/
        (process m <> Exited 0 /\
         (finalize_calls (fst m) = [] \/ finalize_calls (fst m) = [Raise]))) /\
    (forall sc : PfCosim.script T,
        let m := PfCosim.main sc in
        (process m = Exited 0 /\ finalize_calls (fst m) = [Ok tt]) \/
        (process m <> Exited 0 /\
         (finalize_calls (fst m) = [] \/ finalize_calls (fst m) = [Raise]))) /\
    (forall sc : TwoBus.script T,
        let m := TwoBus.main sc in
        (process m = Exited 0 /\ finalize_calls (fst m) = [Ok tt]) \/
        (process m <> Exited 0 /\
         (finalize_calls (fst m) = [] \/ finalize_calls (fst m) = [Raise]))) /\
    (forall sc : SimpleCosim.script T,
        let m := SimpleCosim.main sc in
        (process m = Exited 0 /\ finalize_calls (fst m) = [Ok tt] /\
         exists pre, fst m = pre ++ [Finalize (Ok tt); Destroy] /\ destroys pre = O) \/
        (process m = Exited (-1) /\
         (finalize_calls (fst m) = [] \/ finalize_calls (fst m) = [Raise]) /\
         (fst m = [Create Raise] \/
          exists pre, fst m = Create (Ok tt) :: pre ++ [Destroy] /\
                      destroys pre = O /\ fatal pre = true)) \/
        (process m = Running /\ finalize_calls (fst m) = [] /\ destroys (fst m) = O)).
Proof.
  intros T S. split; [|split; [|split]]; intros.
  - exact (closes_exit _ (lc_main_closes el sc)).
  - exact (closes_exit _ (pf_main_closes sc)).
  - exact (closes_exit _ (twobus_main_closes sc)).
  - apply simple_main_paths.
Qed.

(* ----------------------------------------------------------------- *)
(** ** What the lc-tank federates record, and when their loop ends *)

Section Record.
Import LCTank.
Context {T : Type} `{Scalar T}.

Lemma published_app (key : string) (tr1 tr2 : list (event T)) :
  published key (tr1 ++ tr2) = published key tr1 ++ published key tr2.
Proof.
  induction tr1 as [|e tr1 IH]; [reflexivity|].
  destruct e; cbn; rewrite ?IH; try reflexivity.
  destruct (String.eqb key key0); cbn; now rewrite ?IH.
Qed.

(** What a loop that returns has recorded. *)
Lemma lc_loop_record (el : element T) script s tr s' :
  loop el script s = (tr, Ret s') ->
  exists vs,
    series s' = series s ++ vs /\
    time_sim s' = time_sim s ++ grants tr /\
    published (own_key el) tr = map (@VDouble T) vs /\
    List.length vs = List.length (grants tr).
Proof.
  revert script s tr s'. unfold loop.
  apply (while_loop_returns (total_interval el) (@grantedtime T) (iteration el)
           (fun s tr s' =>
              exists vs,
                series s' = series s ++ vs /\
                time_sim s' = time_sim s ++ grants tr /\
                published (own_key el) tr = map (@VDouble T) vs /\
                List.length vs = List.length (grants tr))).
  - intros s _. exists []. now rewrite !app_nil_r.
  - intros s tk tr1 s1 tr2 s2 _ Hit (vs & Hs & Ht & Hp & Hl).
    destruct (iteration_ret_inv _ _ _ Hit) as (g & x & ->).
    rewrite iteration_answers in Hit. injection Hit as <- <-.
    cbn [series time_sim] in *.
    eexists (_ :: vs).
    rewrite grants_app, published_app. unfold grants at 1 3.
    cbn [time_calls map snd published app List.length].
    rewrite String.eqb_refl, Hs, Ht, Hp, Hl, <- !app_assoc. cbn [app].
    repeat split; reflexivity.
Qed.

(** X3.  What Capacitor.cpp and Inductor.cpp record is what they publish.
    When the loop returns, the state vector is the seed followed by exactly
    the values published, in order; the time vector is 0 followed by the
    granted times; and the two vectors have the same length, so the loop
    that writes the CSV file reads [voltage[i]] within bounds for every
    [i < time_sim.size()]. *)
Theorem record_follows_publications :
  forall (el : element T) script tr s',
    loop el script (initial el) = (tr, Ret s') ->
    exists vs,
      series s' = seed el :: vs /\
      published (own_key el) tr = map (@VDouble T) vs /\
      time_sim s' = lit 0 :: grants tr /\
      List.length (time_sim s') = List.length (series s').
Proof.
  intros el script tr s' Hrun.
  destruct (lc_loop_record _ _ _ Hrun) as (vs & Hs & Ht & Hp & Hl).
  exists vs. cbn [initial series time_sim app] in *.
  rewrite Hs, Ht. cbn [List.length]. rewrite Hl. auto.
Qed.
End Record.

Section RecordWitness.
Import LCTank Runs.

(** The theorem at the two-step run of [Runs.two_periods]. *)
Lemma record_follows_publications_witness :
  exists tr s' vs,
    loop two_periods two_steps (initial two_periods) = (tr, Ret s') /\
    series s' = seed two_periods :: vs /\
    published "Vc" tr = map (@VDouble R) vs /\
    List.length (time_sim s') = 3%nat /\
    List.length (series s') = 3%nat.
Proof.
  do 2 eexists.
  match goal with |- exists vs, ?A /\ _ => assert (Hrun : A) end.
  { unfold loop, two_steps. run_loop_R. reflexivity. }
  destruct (record_follows_publications _ _ Hrun) as (vs & Hs & Hp & Ht & Hl).
  exists vs. split; [exact Hrun|]. split; [exact Hs|]. split; [exact Hp|].
  rewrite <- Hl, Ht. split; reflexivity.
Defined.
End RecordWitness.

Section OnTime.
Context {Tick Locals : Type}.
Variables total_interval period : R.
Variable grantedtime : Locals -> R.
Variable iteration : Tick -> Locals -> M R Locals.
Variable tick_at : nat -> Tick.
Local Open Scope R_scope.

Hypothesis granted_as_requested :
  forall j s, exists tr s',
    iteration (tick_at j) s = (tr, Ret s') /\
    grantedtime s' = INR j * period /\
    List.length (time_calls tr) = 1%nat.

(** With every request granted as made, the loop returns after exactly the
    number of periods it takes to reach the horizon. *)
Lemma while_loop_on_time (n : nat) :
  forall (k : nat) (s : Locals) (rest : list Tick),
    0 < period ->
    grantedtime s = INR k * period ->
    (INR (k + n) - 1) * period < total_interval <= INR (k + n) * period ->
    exists tr s',
      while_loop total_interval grantedtime iteration
        (map tick_at (seq (S k) n) ++ rest) s = (tr, Ret s') /\
      grantedtime s' = INR (k + n) * period /\
      List.length (time_calls tr) = n.
Proof.
  induction n as [|n IH]; intros k s rest Hp Hs [Hlt Hge].
  - rewrite Nat.add_0_r in *. exists [], s.
    rewrite while_loop_exit_R by lra. auto.
  - assert (Hk : grantedtime s < total_interval).
    { rewrite Hs. rewrite plus_INR, S_INR in Hlt.
      pose proof (pos_INR n) as Hn.
      assert (0 <= INR n * period) by (apply Rmult_le_pos; lra). nra. }
    cbn [seq map app]. rewrite while_loop_step_R by exact Hk.
    destruct (granted_as_requested (S k) s) as (tr1 & s1 & Hit & Hs1 & Hl1).
    rewrite Hit. cbn [bind].
    replace (k + S n)%nat with (S k + n)%nat in * by lia.
    destruct (IH (S k) s1 rest Hp Hs1 (conj Hlt Hge)) as (tr2 & s2 & Hrun & Hs2 & Hl2).
    rewrite Hrun. exists (tr1 ++ tr2), s2. split; [reflexivity|]. split; [exact Hs2|].
    rewrite time_calls_app, length_app, Hl1, Hl2. reflexivity.
Qed.
End OnTime.

Section OnTimeFederates.
Local Open Scope R_scope.

Lemma lc_granted_as_requested (el : LCTank.element R) (x : nat -> R) j s :
  exists tr s',
    LCTank.iteration el (lc_on_time el x j) s = (tr, Ret s') /\
    LCTank.grantedtime s' = INR j * LCTank.period el /\
    List.length (time_calls tr) = 1%nat.
Proof.
  unfold lc_on_time. rewrite iteration_answers. do 2 eexists.
  split; [reflexivity|]. split; reflexivity.
Qed.

Lemma pf_granted_as_requested (raw solved : nat -> complex R) j s :
  exists tr s',
    PfCosim.iteration (pf_on_time_tick raw solved j) s = (tr, Ret s') /\
    PfCosim.grantedtime s' = INR j * PfCosim.period /\
    List.length (time_calls tr) = 1%nat.
Proof.
  unfold pf_on_time_tick. rewrite pf_iteration_answers. do 2 eexists.
  split; [reflexivity|]. split; [|reflexivity].
  cbn [PfCosim.grantedtime]. unfold PfCosim.period. now rewrite lit_R_1.
Qed.

Lemma twobus_granted_as_requested (ra rb rc va vb vc : nat -> complex R) j s :
  exists tr s',
    TwoBus.iteration (twobus_on_time_tick ra rb rc va vb vc j) s = (tr, Ret s') /\
    TwoBus.grantedtime s' = INR j * TwoBus.period /\
    List.length (time_calls tr) = 1%nat.
Proof.
  unfold twobus_on_time_tick. rewrite twobus_iteration_answers. do 2 eexists.
  split; [reflexivity|]. split; [|reflexivity].
  cbn [TwoBus.grantedtime]. unfold TwoBus.period. now rewrite lit_R_1.
Qed.

(** The same run in the program's own arithmetic, whichever it is: as long
    as the guard holds the loop goes on, and it returns at the first clock
    that fails it. *)
Lemma lc_as_requested_run {T : Type} `{Scalar T} (el : LCTank.element T)
  (x : nat -> T) (rest : list (LCTank.tick T)) :
  forall (n : nat) (s : LCTank.locals T),
    guard_held (LCTank.period el) (LCTank.total_interval el) n
               (LCTank.grantedtime s) = true ->
    dlt (clock_after (LCTank.period el) n (LCTank.grantedtime s))
        (LCTank.total_interval el) = false ->
    exists tr s',
      LCTank.loop el (lc_as_requested el x (LCTank.grantedtime s) n ++ rest) s
        = (tr, Ret s') /\
      LCTank.grantedtime s' = clock_after (LCTank.period el) n (LCTank.grantedtime s) /\
      List.length (grants tr) = n.
Proof.
  unfold LCTank.loop.
  induction n as [|n IH]; intros s Hg He; cbn [guard_held clock_after] in *.
  - exists [], s. rewrite while_loop_eq, He. auto.
  - destruct (dlt (LCTank.grantedtime s) (LCTank.total_interval el)) eqn:E;
      [|discriminate].
    cbn [lc_as_requested app]. rewrite while_loop_eq, E, iteration_answers.
    cbn [bind].
    match goal with
    | |- context [while_loop _ _ _ _ ?s1] =>
        destruct (IH s1 Hg He) as (tr2 & s2 & Hrun & Hs2 & Hl2)
    end.
    cbn [LCTank.grantedtime] in Hrun. rewrite Hrun.
    do 2 eexists. split; [reflexivity|]. split; [exact Hs2|].
    rewrite grants_app, length_app, Hl2. reflexivity.
Qed.

(** X4.  When the loop of Capacitor.cpp and Inductor.cpp ends, with every
    request granted as made and whatever the peer sends.  In exact
    arithmetic, with step [j] granted [j * period], the loop returns after
    exactly [n] iterations, [n] being the number of periods it takes to
    reach the horizon; the clock then stands at [n * period], [n + 1] states
    are recorded, and answers beyond the [n]th are not asked for.  In
    binary64, with each grant the double that was asked for, the constants of
    the two files (a period of 100e-6, a horizon of 10.0) give 100001
    iterations, not 100000: after 100000 steps the clock stands at
    9.999999999990033, below the horizon, and the loop ends one step later
    at 10.000099999990033. *)
Theorem lc_loop_end_exact_and_binary64 :
  (forall (el : LCTank.element R) (x : nat -> R) (n : nat)
          (rest : list (LCTank.tick R)),
      (0 < LCTank.period el)%R ->
      ((INR n - 1) * LCTank.period el < LCTank.total_interval el
         <= INR n * LCTank.period el)%R ->
      exists tr s',
        LCTank.loop el (map (lc_on_time el x) (seq 1 n) ++ rest) (LCTank.initial el)
          = (tr, Ret s') /\
        LCTank.grantedtime s' = (INR n * LCTank.period el)%R /\
        List.length (grants tr) = n /\
        List.length (LCTank.series s') = S n) /\
  (forall (el : LCTank.element binary64) (x : nat -> binary64)
          (rest : list (LCTank.tick binary64)),
      el = LCTank.Capacitor \/ el = LCTank.Inductor ->
      clock_after (LCTank.period el) capacitor_steps (lit 0)
        = 0x1.3ffffffffea15p+3%float /\
      exists tr s',
        LCTank.loop el (lc_as_requested el x (lit 0) (S capacitor_steps) ++ rest)
          (LCTank.initial el) = (tr, Ret s') /\
        List.length (grants tr) = S capacitor_steps /\
        LCTank.grantedtime s' = 0x1.4000d1b715fa3p+3%float /\
        PrimFloat.ltb (lit 10) (LCTank.grantedtime s') = true).
Proof.
  split.
  - intros el x n rest Hp Hn.
    destruct (@while_loop_on_time _ _ (LCTank.total_interval el) (LCTank.period el)
                (@LCTank.grantedtime R) (LCTank.iteration el) (lc_on_time el x)
                (lc_granted_as_requested el x) n 0%nat (LCTank.initial el) rest Hp)
      as (tr & s' & Hrun & Hs & Hl).
    + cbn [LCTank.grantedtime LCTank.initial INR]. rewrite lit_R_0. lra.
    + exact Hn.
    + exists tr, s'. split; [exact Hrun|]. split; [exact Hs|].
      unfold grants. rewrite length_map. split; [exact Hl|].
      destruct (lc_loop_record _ _ _ Hrun) as (vs & Hser & _ & _ & Hlen).
      rewrite Hser, length_app, Hlen. unfold grants. rewrite length_map, Hl.
      cbn [LCTank.initial LCTank.series List.length]. reflexivity.
  - intros el x rest Hel.
    assert (Hc : clock_after (LCTank.period el) capacitor_steps (lit 0)
                 = 0x1.3ffffffffea15p+3%float)
      by (destruct Hel as [-> | ->]; vm_compute; reflexivity).
    assert (Hc' : clock_after (LCTank.period el) (S capacitor_steps) (lit 0)
                  = 0x1.4000d1b715fa3p+3%float)
      by (destruct Hel as [-> | ->]; vm_compute; reflexivity).
    split; [exact Hc|].
    destruct (lc_as_requested_run el x rest (S capacitor_steps) (LCTank.initial el))
      as (tr & s' & Hrun & Hs & Hl).
    + destruct Hel as [-> | ->]; vm_compute; reflexivity.
    + change (LCTank.grantedtime (LCTank.initial el)) with (lit (T:=binary64) 0).
      rewrite Hc'. destruct Hel as [-> | ->]; vm_compute; reflexivity.
    + change (LCTank.grantedtime (LCTank.initial el)) with (lit (T:=binary64) 0) in *.
      exists tr, s'. split; [exact Hrun|]. split; [exact Hl|].
      rewrite Hs, Hc'. split; [reflexivity|]. vm_compute. reflexivity.
Qed.
End OnTimeFederates.

Section OnTimeRuns.
Import Runs.
Local Open Scope R_scope.

Lemma INR_steps : INR capacitor_steps = 100000.
Proof.
  unfold capacitor_steps. rewrite INR_IZR_INZ, Z2Nat.id by lia. reflexivity.
Qed.

(** The theorem at Capacitor.cpp in exact arithmetic: 100000 iterations, and
    the clock ends at 10, the horizon. *)
Lemma lc_loop_end_exact_witness :
  exists tr s',
    LCTank.loop LCTank.Capacitor
      (map (lc_on_time LCTank.Capacitor (fun _ => 1)) (seq 1 capacitor_steps))
      (LCTank.initial LCTank.Capacitor) = (tr, Ret s') /\
    LCTank.grantedtime s' = 10 /\
    List.length (grants tr) = capacitor_steps /\
    List.length (LCTank.series s') = S capacitor_steps.
Proof.
  assert (Hp : 0 < LCTank.period (T:=R) LCTank.Capacitor) by (cbn; lit_R; lra).
  assert (Hn : (INR capacitor_steps - 1) * LCTank.period LCTank.Capacitor
               < LCTank.total_interval LCTank.Capacitor
               <= INR capacitor_steps * LCTank.period LCTank.Capacitor)
    by (rewrite INR_steps; cbn; lit_R; lra).
  destruct (proj1 lc_loop_end_exact_and_binary64 LCTank.Capacitor (fun _ => 1)
              capacitor_steps [] Hp Hn) as (tr & s' & Hrun & Hs & Hl).
  rewrite app_nil_r in Hrun. exists tr, s'. split; [exact Hrun|].
  split; [|exact Hl]. rewrite Hs, INR_steps. cbn. lit_R. lra.
Defined.

Lemma INR_10 : INR 10 = 10.
Proof. rewrite INR_IZR_INZ. reflexivity. Qed.

(** X5.  With every request granted as made, whatever is read and solved,
    the loops of pf-cosim and of 2bus-13bus return after exactly ten
    iterations with the clock at 10. *)
Theorem solver_loops_make_ten_iterations :
  (forall (raw solved : nat -> complex R) (rest : list (PfCosim.tick R)),
      exists tr s',
        PfCosim.loop (map (pf_on_time_tick raw solved) (seq 1 10) ++ rest)
          PfCosim.initial = (tr, Ret s') /\
        PfCosim.grantedtime s' = 10 /\
        List.length (grants tr) = 10%nat) /\
  (forall (ra rb rc va vb vc : nat -> complex R) (rest : list (TwoBus.tick R)),
      exists tr s',
        TwoBus.loop (map (twobus_on_time_tick ra rb rc va vb vc) (seq 1 10) ++ rest)
          TwoBus.initial = (tr, Ret s') /\
        TwoBus.grantedtime s' = 10 /\
        List.length (grants tr) = 10%nat).
Proof.
  split; intros.
  - destruct (@while_loop_on_time _ _ PfCosim.total_interval PfCosim.period
                (@PfCosim.grantedtime R) PfCosim.iteration
                (pf_on_time_tick raw solved)
                (pf_granted_as_requested raw solved) 10 0%nat PfCosim.initial rest)
      as (tr & s' & Hrun & Hs & Hl).
    + unfold PfCosim.period. rewrite lit_R_1. lra.
    + cbn [PfCosim.grantedtime PfCosim.initial INR]. rewrite lit_R_0. lra.
    + change (0 + 10)%nat with 10%nat. rewrite INR_10.
      unfold PfCosim.total_interval, PfCosim.period. rewrite lit_R_1, lit_R_10. lra.
    + exists tr, s'. split; [exact Hrun|].
      change (0 + 10)%nat with 10%nat in Hs. rewrite INR_10 in Hs.
      unfold PfCosim.period in Hs. rewrite lit_R_1 in Hs.
      split; [lra|]. unfold grants. rewrite length_map. exact Hl.
  - destruct (@while_loop_on_time _ _ TwoBus.total_interval TwoBus.period
                (@TwoBus.grantedtime R) TwoBus.iteration
                (twobus_on_time_tick ra rb rc va vb vc)
                (twobus_granted_as_requested ra rb rc va vb vc) 10 0%nat
                TwoBus.initial rest)
      as (tr & s' & Hrun & Hs & Hl).
    + unfold TwoBus.period. rewrite lit_R_1. lra.
    + cbn [TwoBus.grantedtime TwoBus.initial INR]. rewrite lit_R_0. lra.
    + change (0 + 10)%nat with 10%nat. rewrite INR_10.
      unfold TwoBus.total_interval, TwoBus.period. rewrite lit_R_1, lit_R_10. lra.
    + exists tr, s'. split; [exact Hrun|].
      change (0 + 10)%nat with 10%nat in Hs. rewrite INR_10 in Hs.
      unfold TwoBus.period in Hs. rewrite lit_R_1 in Hs.
      split; [lra|]. unfold grants. rewrite length_map. exact Hl.
Qed.
End OnTimeRuns.

(* ----------------------------------------------------------------- *)
(** ** The solver's in-out voltage *)

Section WarmStart.
Context {T : Type} `{Scalar T}.

(** X6.  pf-cosim hands [voltage] to the solver by reference and never
    resets it: in every run, in either arithmetic, each solve starts from the
    voltage the solve before it answered, and the first one from the initial
    voltage; a solve that throws is the last one. *)
Theorem pf_solver_is_warm_started :
  forall (script : list (PfCosim.tick T)) (s : PfCosim.locals T),
    warm_started (fun v => v) (PfCosim.voltage s)
      (solves "app" (fst (PfCosim.loop script s))).
Proof.
  intros script s. unfold PfCosim.loop.
  apply (while_loop_trace PfCosim.total_interval (@PfCosim.grantedtime T)
           PfCosim.iteration
           (fun s tr => warm_started (fun v => v) (PfCosim.voltage s) (solves "app" tr))).
  - intros. exact I.
  - intros [[g|] [raw|] [v|] [[]|]] s0; cbn; auto.
Qed.

(** X7.  In 2bus-13bus the rotation is applied to the variable that is
    handed to the solver in the next step.  In every run, in exact
    arithmetic, phase A's solve starts from phase A's answer before, phase
    B's from phase B's answer before times [r120], and phase C's from phase
    C's answer before times [r120] twice: the rotations compound through the
    in-out argument. *)
Theorem twobus_solvers_start_from_rotated_voltages :
  forall (script : list (TwoBus.tick R)) (s : TwoBus.locals R),
    let tr := fst (TwoBus.loop script s) in
    warm_started (fun v => v) (TwoBus.Va s) (solves "app_A" tr) /\
    warm_started (fun v => cmul v TwoBus.r120) (TwoBus.Vb s) (solves "app_B" tr) /\
    warm_started (fun v => cmul (cmul v TwoBus.r120) TwoBus.r120) (TwoBus.Vc s)
      (solves "app_C" tr).
Proof.
  intros script s. unfold TwoBus.loop.
  apply (while_loop_trace TwoBus.total_interval (@TwoBus.grantedtime R)
           TwoBus.iteration
           (fun s tr =>
              warm_started (fun v => v) (TwoBus.Va s) (solves "app_A" tr) /\
              warm_started (fun v => cmul v TwoBus.r120) (TwoBus.Vb s)
                (solves "app_B" tr) /\
              warm_started (fun v => cmul (cmul v TwoBus.r120) TwoBus.r120)
                (TwoBus.Vc s) (solves "app_C" tr))).
  - intros. repeat split.
  - intros [[g|] [ra|] [rb|] [rc|] [va|] [vb|] [vc|] [[]|] [[]|] [[]|]] s0;
      cbn; intuition auto.
Qed.
End WarmStart.

(** A second solve that starts from anything but the first answer is not a
    warm start. *)
Example cold_start_refused :
  ~ warm_started (fun v => v) (Complex 1%R 0%R)
      [(Complex 1%R 0%R, Ok (Complex 1.02%R 0%R));
       (Complex 1%R 0%R, Ok (Complex 1.03%R 0%R))].
Proof.
  cbn. intros (_ & E & _). injection E as E. lra.
Qed.

(* ----------------------------------------------------------------- *)
(** ** The requests of simple-cosim *)

Section SimpleRequests.
Context {T : Type} `{Scalar T}.
Local Open Scope double_scope.

Lemma simple_requests_count_from (script : list (SimpleCosim.tick T)) :
  forall t,
    let tr := fst (SimpleCosim.loop t script) in
    counting_from t (requested tr) /\
    (List.length (requested tr) <= S (List.length (requests tr)))%nat.
Proof.
  induction script as [|tk script IH]; intros t; rewrite simple_loop_eq;
    destruct (Z.ltb_spec t 10); try (cbn; auto).
  specialize (IH (t + 1)%Z).
  destruct (SimpleCosim.loop (t + 1) script) as [tr2 r2].
  destruct IH as [IH1 IH2].
  destruct tk as [[g|] [x|] [[]|] [[]|] [[]|]]; unfold requests in *; cbn in *;
    auto with arith.
Qed.

Lemma counting_from_length (reqs : list T) :
  forall t, (0 <= t)%Z -> counting_from t reqs ->
            (List.length reqs <= Z.to_nat (10 - t))%nat.
Proof.
  induction reqs as [|r reqs IH]; intros t Ht Hc; cbn [List.length]; [lia|].
  destruct Hc as (Hlt & _ & Hrest). specialize (IH (t + 1)%Z ltac:(lia) Hrest). lia.
Qed.

(** X8.  Whatever the substrate answers, also when a call throws or the
    answers run out, the times gridpack_federate.cpp asks for, the one of a
    request that throws included, are [t + 1.0] for [t = 0, 1, 2, ...] in
    order and never more than ten; every request but possibly the last one
    came back with a grant. *)
Theorem simple_cosim_requests_count_up :
  forall script : list (SimpleCosim.tick T),
    let tr := fst (SimpleCosim.loop 0 script) in
    counting_from 0 (requested tr) /\
    (List.length (requested tr) <= 10)%nat /\
    (List.length (requested tr) <= S (List.length (requests tr)))%nat.
Proof.
  intros script tr. destruct (simple_requests_count_from script 0) as [Hc Hl].
  split; [exact Hc|]. split; [|exact Hl].
  apply (@counting_from_length _ 0%Z); [lia|exact Hc].
Qed.
End SimpleRequests.

(* ----------------------------------------------------------------- *)
(** ** The rotation, and what is published of what is solved *)

Section Rotation.
Local Open Scope R_scope.

Lemma complex_ext (z w : complex R) : real z = real w -> imag z = imag w -> z = w.
Proof. destruct z, w; cbn; intros -> ->; reflexivity. Qed.

(** X9.  When the three solvers of 2bus-13bus answer the same voltage in a
    step, the voltage published for phase B is the one published for phase A
    times [r120], and the one for phase C is that times [r120] again (exact
    arithmetic). *)
Theorem balanced_phases_are_rotations_of_phase_a :
  forall (s : TwoBus.locals R) (g : R) (ra rb rc v : complex R),
    let tr := fst (TwoBus.iteration (TwoBus.answers g ra rb rc v v v) s) in
    let pa := cmul_scalar v 2400 in
    published "Va" tr = [VComplex pa] /\
    published "Vb" tr = [VComplex (cmul pa TwoBus.r120)] /\
    published "Vc" tr = [VComplex (cmul (cmul pa TwoBus.r120) TwoBus.r120)].
Proof.
  intros. subst tr pa. rewrite twobus_iteration_answers.
  cbn [fst published String.eqb Ascii.eqb Bool.eqb].
  destruct v as [a b].
  repeat split; do 2 f_equal; apply complex_ext; cbn; lit_R; lra.
Qed.

(** X10.  [r120 = -0.5 - 0.866025j] is not of magnitude 1: multiplying by it
    scales the squared magnitude of any voltage by 0.999999300625, so the
    voltage published for phase B is slightly smaller than the one solved,
    and the one for phase C smaller again. *)
Theorem r120_shrinks_what_it_rotates :
  forall v : complex R,
    norm2 (cmul v TwoBus.r120) = 0.999999300625 * norm2 v /\
    norm2 (cmul (cmul v TwoBus.r120) TwoBus.r120)
      = 0.999999300625 * 0.999999300625 * norm2 v /\
    norm2 (cmul v TwoBus.r120) <= norm2 v.
Proof.
  intros [a b]. unfold norm2, cmul, TwoBus.r120. cbn. lit_R.
  assert (0 <= a * a + b * b) by nra.
  repeat split; nra.
Qed.
End Rotation.

Section PublishedSolved.
Context {T : Type} `{Scalar T}.
Local Open Scope double_scope.

(** X11.  In every run of the loop of pf-cosim, in either arithmetic, the
    values handed to [publish] are exactly the voltages the solver answered,
    each times 69000, in order: nothing is published for a step whose read
    or solve threw, and no earlier value is published again. *)
Theorem pf_publishes_every_solved_voltage :
  forall (script : list (PfCosim.tick T)) (s : PfCosim.locals T),
    let tr := fst (PfCosim.loop script s) in
    published "Vc" tr =
      map (fun v => VComplex (cmul_scalar v (lit 69000))) (solved_by "app" tr).
Proof.
  intros script s. unfold PfCosim.loop.
  apply (while_loop_trace PfCosim.total_interval (@PfCosim.grantedtime T)
           PfCosim.iteration
           (fun _ tr =>
              published "Vc" tr =
                map (fun v => VComplex (cmul_scalar v (lit 69000))) (solved_by "app" tr))).
  - reflexivity.
  - intros [[g|] [raw|] [v|] [[]|]] s0; cbn; try reflexivity.
    intros tr2 ->. reflexivity.
Qed.

(** X12.  In every run of the loop of 2bus-13bus, phase A's voltage is
    published (times 2400) exactly for the steps in which all three solves
    succeeded, and there are never more publications of phase C than of
    phase B, nor of phase B than of phase A. *)
Theorem twobus_publishes_after_all_three_solves :
  forall (script : list (TwoBus.tick T)) (s : TwoBus.locals T),
    let tr := fst (TwoBus.loop script s) in
    published "Va" tr =
      map (fun v => VComplex (cmul_scalar v (lit 2400)))
          (firstn (List.length (solved_by "app_C" tr)) (solved_by "app_A" tr)) /\
    (List.length (published "Vc" tr) <= List.length (published "Vb" tr)
       <= List.length (published "Va" tr))%nat.
Proof.
  intros script s. unfold TwoBus.loop.
  apply (while_loop_trace TwoBus.total_interval (@TwoBus.grantedtime T)
           TwoBus.iteration
           (fun _ tr =>
              published "Va" tr =
                map (fun v => VComplex (cmul_scalar v (lit 2400)))
                    (firstn (List.length (solved_by "app_C" tr)) (solved_by "app_A" tr)) /\
              (List.length (published "Vc" tr) <= List.length (published "Vb" tr)
                 <= List.length (published "Va" tr))%nat)).
  - intros. cbn. auto.
  - intros [[g|] [ra|] [rb|] [rc|] [va|] [vb|] [vc|] [[]|] [[]|] [[]|]] s0;
      cbn; try (split; [reflexivity|lia]).
    all: intros tr2 [-> Hl]; split; [reflexivity|lia].
Qed.
End PublishedSolved.
